(** * pdf_generator.py: record selection, template rendering, PDF output

    A shallow embedding of [src/pdf_generator.py] and the properties of
    its record selector, its placeholder-substitution engine and its
    document generator.

    Python values are embedded as follows.
    - A [str] is the list of its Unicode code points ([text]); the
      regular expressions of the source work on code points, and so do
      the scanners below.
    - A record ([Dict[str, Any]]) is an association list in insertion
      order: the substitution loop iterates [template_data.items()] in
      that order and its result depends on it.
    - A field value is a [value]; the code only ever tests a value for
      [None], for NaN, for truth, and takes its [str()].
    - The file system and the PDF engine are explicit: a [world] is
      threaded through the functions that touch files, and what they
      print or do to files is collected as a list of [event]s.

    The first part of the file holds the model, the second part the
    lemmas and the properties. *)

From Stdlib Require Import String Ascii.
From Stdlib Require Import List NArith ZArith Bool Lia.
From Stdlib Require Decimal.
From Stdlib Require Import Sorted Permutation.
From Stdlib Require Import Wf_nat.
Import ListNotations.

Set Implicit Arguments.

(* ################################################################## *)
(** * Part I: the model *)
(* ################################################################## *)

(* ================================================================== *)
(** ** Text *)
(* ================================================================== *)

Module Text.

(** A Python [str]: its code points. *)
Definition text := list N.

(** The code points of an ASCII literal. *)
Definition lit (s : string) : text :=
  map N_of_ascii (list_ascii_of_string s).

Definition text_eq_dec : forall a b : text, {a = b} + {a <> b} :=
  list_eq_dec N.eq_dec.

Definition text_eqb (a b : text) : bool :=
  if text_eq_dec a b then true else false.

(** Named code points. *)
Definition NUL     : N := 0.
Definition newline : N := 10.
Definition dquote  : N := 34.
Definition colon   : N := 58.
Definition lt      : N := 60.
Definition gt      : N := 62.
Definition lbrace  : N := 123.
Definition rbrace  : N := 125.

(** [n] spaces. *)
Definition spaces (n : nat) : text := repeat 32%N n.

(** The rest of [s] after the prefix [p], when [s.startswith(p)]. *)
Fixpoint strip_prefix (p s : text) : option text :=
  match p with
  | [] => Some s
  | a :: p' =>
      match s with
      | [] => None
      | b :: s' => if N.eqb a b then strip_prefix p' s' else None
      end
  end.

Definition starts_with (p s : text) : bool :=
  match strip_prefix p s with Some _ => true | None => false end.

(** [p in s] for two strings. *)
Fixpoint contains (p s : text) : bool :=
  starts_with p s ||
  match s with
  | [] => false
  | _ :: s' => contains p s'
  end.

(** The number of characters of [s] before the first [c]. *)
Fixpoint until (c : N) (s : text) : option nat :=
  match s with
  | [] => None
  | d :: s' => if N.eqb d c then Some 0 else option_map S (until c s')
  end.

(** The longest prefix of [s] whose characters satisfy [p], and the
    rest. *)
Fixpoint span (p : N -> bool) (s : text) : text * text :=
  match s with
  | [] => ([], [])
  | c :: s' =>
      if p c then let (run, rest) := span p s' in (c :: run, rest)
      else ([], s)
  end.

End Text.
Export Text.

(* ================================================================== *)
(** ** Values and records *)
(* ================================================================== *)

Module Py.

(** What a record field can hold after [json.load] or [pandas.read_csv].
    [VOther] stands for every object the code does not look into (a
    float that is not NaN, a list, a nested object): the code observes
    only [bool(x)] and [str(x)] of it, which the constructor carries. *)
Inductive value :=
| VNone
| VBool (b : bool)
| VInt (n : Z)
| VNaN
| VStr (s : text)
| VOther (truth : bool) (display : text).

Fixpoint digits (u : Decimal.uint) : text :=
  match u with
  | Decimal.Nil => []
  | Decimal.D0 u => 48 :: digits u
  | Decimal.D1 u => 49 :: digits u
  | Decimal.D2 u => 50 :: digits u
  | Decimal.D3 u => 51 :: digits u
  | Decimal.D4 u => 52 :: digits u
  | Decimal.D5 u => 53 :: digits u
  | Decimal.D6 u => 54 :: digits u
  | Decimal.D7 u => 55 :: digits u
  | Decimal.D8 u => 56 :: digits u
  | Decimal.D9 u => 57 :: digits u
  end%N.

Definition str_int (n : Z) : text :=
  match Z.to_int n with
  | Decimal.Pos u => digits u
  | Decimal.Neg u => 45%N :: digits u
  end.

(** [str(x)]. *)
Definition str (v : value) : text :=
  match v with
  | VNone => lit "None"
  | VBool true => lit "True"
  | VBool false => lit "False"
  | VInt n => str_int n
  | VNaN => lit "nan"
  | VStr s => s
  | VOther _ d => d
  end.

(** [bool(x)]. NaN is a non-zero float, hence true. *)
Definition truthy (v : value) : bool :=
  match v with
  | VNone => false
  | VBool b => b
  | VInt n => negb (Z.eqb n 0)
  | VNaN => true
  | VStr s => match s with [] => false | _ => true end
  | VOther t _ => t
  end.

(** [x is None]. *)
Definition is_none (v : value) : bool :=
  match v with VNone => true | _ => false end.

(** [isinstance(x, float) and x != x]. *)
Definition is_nan (v : value) : bool :=
  match v with VNaN => true | _ => false end.

(** [a or b]. *)
Definition py_or (a b : value) : value :=
  if truthy a then a else b.

(** A dict with [str] keys, in insertion order. *)
Definition dict (V : Type) := list (text * V).

(** The entry of key [k], if any. *)
Fixpoint lookup (V : Type) (k : text) (d : dict V) : option V :=
  match d with
  | [] => None
  | (k', v) :: d' => if text_eqb k' k then Some v else lookup k d'
  end.

(** [k in d]. *)
Definition mem (V : Type) (k : text) (d : dict V) : bool :=
  match lookup k d with Some _ => true | None => false end.

(** [d[k] = v]: an existing key keeps its position, a new key goes to
    the end. *)
Fixpoint set (V : Type) (k : text) (v : V) (d : dict V) : dict V :=
  match d with
  | [] => [(k, v)]
  | (k', v') :: d' =>
      if text_eqb k' k then (k', v) :: d' else (k', v') :: set k v d'
  end.

Definition keys (V : Type) (d : dict V) : list text := map fst d.

(** No key occurs twice, as in every Python dict. *)
Fixpoint unique_keys (V : Type) (d : dict V) : bool :=
  match d with
  | [] => true
  | (k, _) :: d' => negb (mem k d') && unique_keys d'
  end.

(** [d.get(k)], which is [None] for an absent key. *)
Definition get (k : text) (d : dict value) : value :=
  match lookup k d with Some v => v | None => VNone end.

(** The exceptions the modelled code can meet. All of them are
    subclasses of [Exception]. *)
Inductive exn :=
| FileNotFoundError
| PermissionError
| OSError
| UnicodeDecodeError
| UnboundLocalError (variable : text)
| PdfError (err : Z).

(** What a call does: it returns a value or raises. *)
Inductive outcome (A : Type) :=
| Returned (a : A)
| Raised (e : exn).

Arguments Raised {A} e.

(** Reading a local variable that may not have been assigned yet. *)
Definition read_local (A : Type) (name : text) (x : option A) : outcome A :=
  match x with
  | Some a => Returned a
  | None => Raised (UnboundLocalError name)
  end.

End Py.
Export Py.

(* ================================================================== *)
(** ** The scanners of [re] *)
(* ================================================================== *)

Module Re.

(** A pattern is given by its matcher at the head of a text: the number
    of characters the match takes there, if there is one. Every pattern
    of the source takes at least two characters, so the rules of [re]
    for empty matches never apply. *)
Definition matcher := text -> option nat.

(** [re.sub(pattern, repl, s)]: scan from the left; at a match write
    [repl] and go on after the match, otherwise copy one character.
    [skip] counts the characters of the current match still to drop. *)
Fixpoint sub_from (m : matcher) (repl : text) (skip : nat) (s : text)
  : text :=
  match s with
  | [] => []
  | c :: s' =>
      match skip with
      | S n => sub_from m repl n s'
      | O =>
          match m s with
          | Some n => repl ++ sub_from m repl (pred n) s'
          | None => c :: sub_from m repl 0 s'
          end
      end
  end.

Definition re_sub (m : matcher) (repl : text) (s : text) : text :=
  sub_from m repl 0 s.

(** [re.findall] for a pattern with one group: the group of every match
    of the same scan. *)
Fixpoint findall_from (m : text -> option (nat * text)) (skip : nat)
  (s : text) : list text :=
  match s with
  | [] => []
  | _ :: s' =>
      match skip with
      | S n => findall_from m n s'
      | O =>
          match m s with
          | Some (n, g) => g :: findall_from m (pred n) s'
          | None => findall_from m 0 s'
          end
      end
  end.

Definition findall (m : text -> option (nat * text)) (s : text)
  : list text :=
  findall_from m 0 s.

(** A pattern without metacharacters, such as [\{\{]. *)
Definition literal (p : text) : matcher :=
  fun s => if starts_with p s then Some (length p) else None.

(** [s.replace(old, new)], which is also [re.sub] of the literal
    pattern; [old] is never empty in the source. *)
Definition replace (old new s : text) : text :=
  re_sub (literal old) new s.

(** The pattern built for a key, an opening brace, [re.escape(key)], an
    optional group of a colon and a greedy run of characters other than
    the closing brace, and a closing brace: it takes the brace and the
    key, then either the closing brace at once, or a colon and
    everything up to the first closing brace. *)
Definition placeholder (key : text) : matcher :=
  fun s =>
    match s with
    | c :: s1 =>
        if N.eqb c lbrace then
          match strip_prefix key s1 with
          | Some (d :: s2) =>
              if N.eqb d rbrace then Some (2 + length key)
              else if N.eqb d colon then
                match until rbrace s2 with
                | Some j => Some (length key + 3 + j)
                | None => None
                end
              else None
          | _ => None
          end
        else None
    | [] => None
    end.

(** [[a-zA-Z_]] and [[a-zA-Z0-9_]]. *)
Definition is_ident_start (c : N) : bool :=
  ((65 <=? c) && (c <=? 90) || (97 <=? c) && (c <=? 122) || (c =? 95))%N.

Definition is_ident_char (c : N) : bool :=
  (is_ident_start c || (48 <=? c) && (c <=? 57))%N.

(** The pattern of the leftover scan: an opening brace, a group made of
    an identifier start and a greedy run of identifier characters, a
    closing brace. With its group. *)
Definition braced_ident (s : text) : option (nat * text) :=
  match s with
  | c :: d :: s2 =>
      if N.eqb c lbrace && is_ident_start d then
        let (run, rest) := span is_ident_char s2 in
        match rest with
        | e :: _ =>
            if N.eqb e rbrace then Some (3 + length run, d :: run)
            else None
        | [] => None
        end
      else None
  | _ => None
  end.

(** Lower case as [re.IGNORECASE] takes it, on the code points whose
    lower case is an ASCII letter (the patterns of the source are
    ASCII): the capitals, U+0130 and the Kelvin sign U+212A. *)
Definition to_lower (c : N) : N :=
  (if (65 <=? c) && (c <=? 90) then c + 32
   else if c =? 304 then 105
   else if c =? 8490 then 107
   else c)%N.

(** A lower-case ASCII character [p] of a pattern against [c] under
    [re.IGNORECASE]: equal lower case, and the two extra equivalences
    of [re] that reach ASCII, dotless i (U+0131) for [i] and long s
    (U+017F) for [s]. *)
Definition ci_eq (p c : N) : bool :=
  (N.eqb (to_lower c) p
   || (p =? 105) && (c =? 305)
   || (p =? 115) && (c =? 383))%N.

Fixpoint ci_strip_prefix (p s : text) : option text :=
  match p with
  | [] => Some s
  | a :: p' =>
      match s with
      | [] => None
      | b :: s' => if ci_eq a b then ci_strip_prefix p' s' else None
      end
  end.

Definition ci_starts_with (p s : text) : bool :=
  match ci_strip_prefix p s with Some _ => true | None => false end.

(** Offset of the first occurrence of [p] in [s], ignoring case. *)
Fixpoint ci_find (p s : text) : option nat :=
  if ci_starts_with p s then Some 0
  else match s with
       | [] => None
       | _ :: s' => option_map S (ci_find p s')
       end.

(** The style pattern under [re.DOTALL | re.IGNORECASE]: [<style], a
    greedy run of characters other than [>] and a [>], a lazy run of
    any characters, [</style>]. It takes [<style], everything up to the
    first [>], then everything up to the first [</style>]. *)
Definition style_block : matcher :=
  fun s =>
    match ci_strip_prefix (lit "<style") s with
    | Some s1 =>
        match until gt s1 with
        | Some i =>
            match ci_find (lit "</style>") (skipn (S i) s1) with
            | Some j => Some (6 + i + 1 + j + 8)
            | None => None
            end
        | None => None
        end
    | None => None
    end.

End Re.
Export Re.

(* ================================================================== *)
(** ** The outside world *)
(* ================================================================== *)

Module World.

Definition path := text.

(** The file system as the code sees it: the content of every existing
    file, and for every path the error the operating system answers to
    reading, removing or opening it for writing ([None]: it lets the
    operation through). *)
Record world := {
  files : path -> option (list N);
  read_error : path -> option exn;
  unlink_error : path -> option exn;
  write_error : path -> option exn
}.

Definition update_file (w : world) (p : path) (c : option (list N))
  : world :=
  {| files := fun q => if text_eqb q p then c else files w q;
     read_error := read_error w;
     unlink_error := unlink_error w;
     write_error := write_error w |}.

(** What a run prints and what it does to files, in order. *)
Inductive event :=
| PrintRenderError (e : exn)
| PrintTraceback (e : exn)
| PrintUnresolved (names : list text)
| PrintAvailableKeys (names : list text)
| PrintCannotRemove (p : path)
| PrintCloseFileAndRetry
| PrintNoAccess (p : path)
| PrintPossibleCauses
| PrintRetryHint (p : path)
| PrintPdfWarning (warn : Z)
| PrintPdfCreated (p : path)
| PrintGenerateError (e : exn)
| Unlinked (p : path)
| OpenedForWriting (p : path)
| Wrote (p : path) (bytes : list N).

(** [p.exists()]. *)
Definition exists_ (w : world) (p : path) : bool :=
  match files w p with Some _ => true | None => false end.

(** [open(p, 'r', encoding='utf-8').read()]. *)
Definition read_text (w : world) (p : path) : outcome text :=
  match files w p with
  | None => Raised FileNotFoundError
  | Some c =>
      match read_error w p with
      | Some e => Raised e
      | None => Returned c
      end
  end.

(** [p.unlink()]. *)
Definition unlink (w : world) (p : path) : outcome world :=
  match unlink_error w p with
  | Some e => Raised e
  | None =>
      match files w p with
      | None => Raised FileNotFoundError
      | Some _ => Returned (update_file w p None)
      end
  end.

(** [open(p, 'w+b')]: the file is created or emptied. *)
Definition open_wb (w : world) (p : path) : outcome world :=
  match write_error w p with
  | Some e => Raised e
  | None => Returned (update_file w p (Some []))
  end.

(** What [pisa.CreatePDF] answers for an HTML text: the bytes it sends
    to the destination, the error indicator and the warnings. *)
Record pisa_status := {
  pdf_bytes : list N;
  err : Z;
  warn : Z
}.

End World.
Export World.

(* ================================================================== *)
(** ** Record selector *)
(* ================================================================== *)

Module Selector.

(** The chain [record.get('invoice_id') or record.get('invoiceId') or
    record.get('invoice') or record.get('id') or record.get('ID')]: the
    first true value, and the value of the last operand when none is
    true. *)
Definition invoice_id_field (record : dict value) : value :=
  py_or (py_or (py_or (py_or (get (lit "invoice_id") record)
                             (get (lit "invoiceId") record))
                      (get (lit "invoice") record))
               (get (lit "id") record))
        (get (lit "ID") record).

(** Lexicographic order on code points, the order of [sorted] on
    strings. *)
Fixpoint text_leb (a b : text) : bool :=
  match a, b with
  | [], _ => true
  | _ :: _, [] => false
  | x :: a', y :: b' =>
      if N.ltb x y then true
      else if N.eqb x y then text_leb a' b'
      else false
  end.

Fixpoint insert_sorted (x : text) (l : list text) : list text :=
  match l with
  | [] => [x]
  | y :: l' => if text_leb x y then x :: l else y :: insert_sorted x l'
  end.

Definition sorted (l : list text) : list text :=
  fold_right insert_sorted [] l.

(** The loop of [get_invoice_ids]: a record contributes its identifier
    when the chain gives a true value not yet listed. *)
Fixpoint collect_ids (data : list (dict value)) (invoice_ids : list text)
  : list text :=
  match data with
  | [] => invoice_ids
  | record :: rest =>
      let invoice_id := invoice_id_field record in
      if truthy invoice_id
         && negb (existsb (text_eqb (str invoice_id)) invoice_ids)
      then collect_ids rest (invoice_ids ++ [str invoice_id])
      else collect_ids rest invoice_ids
  end.

Definition get_invoice_ids (data : list (dict value)) : list text :=
  sorted (collect_ids data []).

(** [find_record_by_invoice_id]: the first record for which
    [str(invoice_id_field) == str(invoice_id)]. *)
Fixpoint find_record_by_invoice_id (data : list (dict value))
  (invoice_id : text) : option (dict value) :=
  match data with
  | [] => None
  | record :: rest =>
      if text_eqb (str (invoice_id_field record)) invoice_id
      then Some record
      else find_record_by_invoice_id rest invoice_id
  end.

End Selector.
Export Selector.

(* ================================================================== *)
(** ** Template renderer *)
(* ================================================================== *)

Module Renderer.

(** The value copied into [template_data] for a field: the empty string
    for [None] and for NaN, [str(value)] otherwise. *)
Definition display (v : value) : text :=
  if is_none v then []
  else if is_nan v then []
  else str v.

(** The loop [for key, value in data.items(): template_data[key] = ...]. *)
Definition copy_fields (data : dict value) : dict text :=
  fold_left (fun td kv => set (fst kv) (display (snd kv)) td) data [].

(** The two f-strings of the derived rows. The labels are the Cyrillic
    words of the source, given by their code points. *)
Definition currency_suffix : text :=
  [32; 1088; 1091; 1073]%N ++ lit ".</span></div>".

Definition tax_fragment (tax_value : text) : text :=
  lit "<div class=" ++ [dquote] ++ lit "amount-row" ++ [dquote]
  ++ lit "><span>" ++ [1053; 1044; 1057]%N ++ lit ":</span><span>"
  ++ tax_value ++ currency_suffix.

Definition total_fragment (total_value : text) : text :=
  lit "<div class=" ++ [dquote] ++ lit "amount-row total" ++ [dquote]
  ++ lit "><span>" ++ [1048; 1090; 1086; 1075; 1086]%N
  ++ lit ":</span><span>" ++ total_value ++ currency_suffix.

(** [name in data and data.get(name) is not None]. *)
Definition has_non_null (name : text) (data : dict value) : bool :=
  mem name data && negb (is_none (get name data)).

Definition tax_row (data : dict value) : text :=
  if has_non_null (lit "tax") data
  then tax_fragment (str (get (lit "tax") data))
  else [].

Definition total_row (data : dict value) : text :=
  if has_non_null (lit "total") data
  then total_fragment (str (get (lit "total") data))
  else [].

(** The merged mapping the substitution runs over. *)
Definition template_data (data : dict value) : dict text :=
  set (lit "total_row") (total_row data)
    (set (lit "tax_row") (tax_row data) (copy_fields data)).

(** The private markers that stand for the doubled braces. *)
Definition OPEN_MARK : text := NUL :: lit "OPEN" ++ [NUL].
Definition CLOSE_MARK : text := NUL :: lit "CLOSE" ++ [NUL].

Definition protect (template : text) : text :=
  replace (lit "}}") CLOSE_MARK (replace (lit "{{") OPEN_MARK template).

Definition restore (rendered : text) : text :=
  replace CLOSE_MARK (lit "}}") (replace OPEN_MARK (lit "{{") rendered).

(** One pass of the loop: [re.sub(pattern, lambda m: str(value),
    rendered)] for one key. *)
Definition substitute_key (key value : text) (rendered : text) : text :=
  re_sub (placeholder key) value rendered.

(** The loop [for key, value in template_data.items()], every pass
    working on the text the pass before it left. *)
Definition substitute (td : dict text) (rendered : text) : text :=
  fold_left (fun r kv => substitute_key (fst kv) (snd kv) r) td rendered.

(** The rendered text: the value [render_template] computes from the
    template it has read. *)
Definition render_text (template : text) (data : dict value) : text :=
  restore (substitute (template_data data) (protect template)).

(** The leftover scan. [set(remaining)] is taken in order of first
    occurrence; Python leaves the order of a set open, and nothing
    below depends on it. *)
Definition non_style_content (rendered : text) : text :=
  re_sub style_block [] rendered.

Definition remaining_placeholders (td : dict text) (rendered : text)
  : list text :=
  filter (fun p => negb (mem p td))
    (nodup text_eq_dec (findall braced_ident (non_style_content rendered))).

(** What the run prints about leftovers. *)
Definition leftover_report (td : dict text) (rendered : text)
  : list event :=
  match remaining_placeholders td rendered with
  | [] => []
  | names => [PrintUnresolved names; PrintAvailableKeys (keys td)]
  end.

(** The [except Exception] clause: print the error and the traceback,
    then [return template], whatever [template] is bound to then. *)
Definition render_except (template : option text) (e : exn)
  : outcome text * list event :=
  (read_local (lit "template") template,
   [PrintRenderError e; PrintTraceback e]).

(** [render_template(template_path, data)]. Reading the file is the
    first statement of the [try] block; [template] is assigned only
    when it succeeds. For a record with string keys nothing after the
    read raises. *)
Definition render_template (w : world) (template_path : path)
  (data : dict value) : outcome text * list event :=
  match read_text w template_path with
  | Raised e => render_except None e
  | Returned template =>
      let rendered := render_text template data in
      (Returned rendered, leftover_report (template_data data) rendered)
  end.

End Renderer.
Export Renderer.

(* ================================================================== *)
(** ** Document generator *)
(* ================================================================== *)

Module Generator.

(** What the start of the module leaves behind: the font it registered,
    if any, and the platform. *)
Record config := {
  CYRILLIC_FONT_PATH : option text;
  on_windows : bool
}.

(** [bool(CYRILLIC_FONT_PATH)]. *)
Definition font_known (cfg : config) : bool :=
  match CYRILLIC_FONT_PATH cfg with
  | Some (_ :: _) => true
  | _ => false
  end.

Definition backslash : text := [92%N].

Definition font_url (cfg : config) (font : text) : text :=
  let slashed := replace backslash (lit "/") font in
  if on_windows cfg
  then lit "file://" ++ replace (lit "C:/") (lit "/C/") slashed
  else lit "file://" ++ slashed.

Definition font_face_rule (family url : text) : text :=
  spaces 12 ++ lit "@font-face {" ++ [newline]
  ++ spaces 16 ++ lit "font-family: " ++ [dquote] ++ family ++ [dquote]
  ++ lit ";" ++ [newline]
  ++ spaces 16 ++ lit "src: url(" ++ [dquote] ++ url ++ [dquote]
  ++ lit ");" ++ [newline]
  ++ spaces 12 ++ lit "}" ++ [newline].

Definition font_face_css (cfg : config) (w : world) : text :=
  match CYRILLIC_FONT_PATH cfg with
  | Some font =>
      if font_known cfg && exists_ w font then
        [newline]
        ++ font_face_rule (lit "Arial") (font_url cfg font)
        ++ font_face_rule (lit "sans-serif") (font_url cfg font)
        ++ spaces 12
      else []
  | None => []
  end.

Definition font_family (cfg : config) : text :=
  if font_known cfg then lit "Arial, Helvetica, sans-serif"
  else lit "Arial, sans-serif".

(** The default stylesheet. *)
Definition style_tag (css family : text) : text :=
  lit "<style>" ++ [newline]
  ++ spaces 16 ++ css ++ [newline]
  ++ spaces 16 ++ lit "@page {" ++ [newline]
  ++ spaces 20 ++ lit "size: A4;" ++ [newline]
  ++ spaces 20 ++ lit "margin: 2cm;" ++ [newline]
  ++ spaces 16 ++ lit "}" ++ [newline]
  ++ spaces 16 ++ lit "* {" ++ [newline]
  ++ spaces 20 ++ lit "font-family: " ++ family ++ lit " !important;"
  ++ [newline]
  ++ spaces 16 ++ lit "}" ++ [newline]
  ++ spaces 16 ++ lit "body {" ++ [newline]
  ++ spaces 20 ++ lit "font-size: 12pt;" ++ [newline]
  ++ spaces 16 ++ lit "}" ++ [newline]
  ++ spaces 12 ++ lit "</style>".

Definition font_override (css family : text) : text :=
  lit "<style>" ++ css ++ lit "* { font-family: " ++ family
  ++ lit " !important; }</style>".

(** Where a block of styles goes: before [</head>] and [</HEAD>] when
    one of the two spellings occurs, else after [<body>] and [<BODY>]
    when one of those occurs. *)
Definition has_head (html : text) : bool :=
  contains (lit "</head>") html || contains (lit "</HEAD>") html.

Definition has_body (html : text) : bool :=
  contains (lit "<body>") html || contains (lit "<BODY>") html.

Definition into_head (block html : text) : text :=
  replace (lit "</HEAD>") (block ++ lit "</HEAD>")
    (replace (lit "</head>") (block ++ lit "</head>") html).

Definition into_body (block html : text) : text :=
  replace (lit "<BODY>") (lit "<BODY>" ++ block)
    (replace (lit "<body>") (lit "<body>" ++ block) html).

(** ['<style>' not in html_content and '<STYLE>' not in html_content]. *)
Definition no_style_tag (html : text) : bool :=
  negb (contains (lit "<style>") html)
  && negb (contains (lit "<STYLE>") html).

(** The first half of [generate_pdf]: the HTML handed to the engine. *)
Definition add_styles (cfg : config) (w : world) (html_content : text)
  : text :=
  let css := font_face_css cfg w in
  let family := font_family cfg in
  if no_style_tag html_content then
    let block := style_tag css family in
    if has_head html_content then into_head block html_content
    else if has_body html_content then into_body block html_content
    else block ++ html_content
  else
    let block := font_override css family in
    if has_head html_content then into_head block html_content
    else if has_body html_content then into_body block html_content
    else html_content.

(** Statements that change the world, print, and may raise. *)
Definition M (A : Type) := world -> outcome A * world * list event.

Definition ret (A : Type) (a : A) : M A :=
  fun w => (Returned a, w, []).

Definition bind (A B : Type) (m : M A) (f : A -> M B) : M B :=
  fun w =>
    match m w with
    | (Returned a, w1, t1) =>
        match f a w1 with
        | (r, w2, t2) => (r, w2, t1 ++ t2)
        end
    | (Raised e, w1, t1) => (Raised e, w1, t1)
    end.

Definition emit (ev : event) : M unit :=
  fun w => (Returned tt, w, [ev]).

Definition raise (A : Type) (e : exn) : M A :=
  fun w => (Raised e, w, []).

Arguments raise {A} e.

(** [try: body / except <those of catches>: handler]. *)
Definition try_except (A : Type) (body : M A) (catches : exn -> bool)
  (handler : exn -> M A) : M A :=
  fun w =>
    match body w with
    | (Raised e, w1, t1) =>
        if catches e then
          match handler e w1 with
          | (r, w2, t2) => (r, w2, t1 ++ t2)
          end
        else (Raised e, w1, t1)
    | r => r
    end.

Definition when (b : bool) (m : M unit) : M unit :=
  if b then m else ret tt.

Notation "x <- m ;; k" := (bind m (fun x => k))
  (at level 61, m at next level, right associativity).
Notation "m ;;; k" := (bind m (fun _ => k))
  (at level 61, right associativity).

Definition is_permission_error (e : exn) : bool :=
  match e with PermissionError => true | _ => false end.

Definition any_exception (e : exn) : bool := true.

(** The file operations as statements. *)
Definition do_unlink (p : path) : M unit :=
  fun w =>
    match unlink w p with
    | Returned w1 => (Returned tt, w1, [Unlinked p])
    | Raised e => (Raised e, w, [])
    end.

Definition do_open_wb (p : path) : M unit :=
  fun w =>
    match open_wb w p with
    | Returned w1 => (Returned tt, w1, [OpenedForWriting p])
    | Raised e => (Raised e, w, [])
    end.

Definition do_write (p : path) (bytes : list N) : M unit :=
  fun w => (Returned tt, update_file w p (Some bytes), [Wrote p bytes]).

Definition path_exists (p : path) : M bool :=
  fun w => (Returned (exists_ w p), w, []).

Definition styled (cfg : config) (html_content : text) : M text :=
  fun w => (Returned (add_styles cfg w html_content), w, []).

Section Generate.

(** The PDF engine and the configuration are fixed for a run. *)
Variable pisa : text -> pisa_status.
Variable cfg : config.

(** [generate_pdf(html_content, output_path)]. *)
Definition generate_pdf (html_content : text) (output_path : path)
  : M unit :=
  try_except
    (html <- styled cfg html_content ;;
     present <- path_exists output_path ;;
     when present
       (try_except (do_unlink output_path) is_permission_error
          (fun e =>
             emit (PrintCannotRemove output_path) ;;;
             emit PrintCloseFileAndRetry ;;;
             raise e)) ;;;
     try_except
       (do_open_wb output_path ;;;
        let pisa_status := pisa html in
        do_write output_path (pdf_bytes pisa_status) ;;;
        when (negb (Z.eqb (err pisa_status) 0))
          (raise (PdfError (err pisa_status))) ;;;
        when (negb (Z.eqb (warn pisa_status) 0))
          (emit (PrintPdfWarning (warn pisa_status))) ;;;
        emit (PrintPdfCreated output_path))
       is_permission_error
       (fun e =>
          emit (PrintNoAccess output_path) ;;;
          emit PrintPossibleCauses ;;;
          emit (PrintRetryHint output_path) ;;;
          raise e))
    any_exception
    (fun e =>
       emit (PrintGenerateError e) ;;;
       emit (PrintTraceback e) ;;;
       raise e).

End Generate.



End Generator.
Export Generator.

(* ================================================================== *)
(** ** Data loader: the keys of a record *)
(* ================================================================== *)

Module Loader.

(** [c.isspace()]: the code points [str.strip()] takes away. *)
Definition is_space (c : N) : bool :=
  ((9 <=? c) && (c <=? 13) || (28 <=? c) && (c <=? 32)
   || (c =? 133) || (c =? 160) || (c =? 5760)
   || (8192 <=? c) && (c <=? 8202)
   || (c =? 8232) || (c =? 8233) || (c =? 8239) || (c =? 8287)
   || (c =? 12288))%N.

(** [s.lstrip()]. *)
Fixpoint lstrip (s : text) : text :=
  match s with
  | [] => []
  | c :: s' => if is_space c then lstrip s' else s
  end.

(** [s.strip()]. *)
Definition strip (s : text) : text :=
  rev (lstrip (rev (lstrip s))).

(** The loop of [load_csv_data] over one parsed row, on both of its
    paths: [normalized[str(key).strip()] = value] for every item, in
    order. The keys are the header cells, strings already. *)
Definition normalize_record (V : Type) (record : dict V) : dict V :=
  fold_left (fun normalized kv => set (strip (fst kv)) (snd kv) normalized)
    record [].

(** The list [normalized_records]. *)
Definition normalize_records (V : Type) (records : list (dict V))
  : list (dict V) :=
  map (@normalize_record V) records.

End Loader.
Export Loader.

(* ================================================================== *)
(** ** Vocabulary of the properties *)
(* ================================================================== *)

Module Vocabulary.

(** The character [c] occurs in [t]. *)
Definition occurs (c : N) (t : text) : bool := existsb (N.eqb c) t.

(** Text without braces and without the delimiter of the markers. *)
Definition plain (t : text) : bool :=
  negb (occurs lbrace t) && negb (occurs rbrace t) && negb (occurs NUL t).

(** A key without braces and without a colon. *)
Definition clean_key (k : text) : bool :=
  negb (occurs lbrace k) && negb (occurs rbrace k)
  && negb (occurs colon k).


(** A name the leftover scan accepts between braces. *)
Definition is_identifier (name : text) : bool :=
  match name with
  | [] => false
  | c :: rest => is_ident_start c && forallb is_ident_char rest
  end.

(** [<style] occurs in [t], case ignored. *)
Definition opens_style (t : text) : bool :=
  match ci_find (lit "<style") t with Some _ => true | None => false end.

(** A matcher that can only succeed on a text starting with [c]. *)
Definition fires_only_at (m : matcher) (c : N) : Prop :=
  forall d s, d <> c -> m (d :: s) = None.

(** A matcher whose answer on a non-empty text does not change when
    [suffix] is appended to the text. *)
Definition blind_to (m : matcher) (suffix : text) : Prop :=
  forall x, x <> [] -> m (x ++ suffix) = m x.



(** The five field names of the identifier chain, in its order. *)
Definition identifier_fields : list text :=
  [lit "invoice_id"; lit "invoiceId"; lit "invoice"; lit "id"; lit "ID"].

(** [a <= b] for two strings. *)
Definition lex_le (a b : text) : Prop := text_leb a b = true.

(** The text starts with a character of [str.isspace]. *)
Definition starts_with_space (s : text) : bool :=
  match s with
  | [] => false
  | c :: _ => is_space c
  end.

(** No white space at either end. *)
Definition trimmed (s : text) : bool :=
  negb (starts_with_space s) && negb (starts_with_space (rev s)).

(** What the [except Exception] clause of [generate_pdf] prints. *)
Definition failure_report (e : exn) : list event :=
  [PrintGenerateError e; PrintTraceback e].

(** The last event of a trace. *)
Definition last_event (trace : list event) : option event :=
  hd_error (rev trace).

(** [s] ends with [p]. *)
Definition ends_with (p s : text) : bool := starts_with (rev p) (rev s).









(** The texts on the two sides of a token complete a marker with a NUL
    character of the token's own markers: the first ends with NUL and
    the letters OPEN, or the second starts with the letters OPEN and
    NUL. *)
Definition marker_clash (before after : text) : bool :=
  ends_with (NUL :: lit "OPEN") before
  || starts_with (lit "OPEN" ++ [NUL]) after.





End Vocabulary.
Export Vocabulary.

(* ################################################################## *)
(** * Part II: lemmas and properties *)
(* ################################################################## *)

(* ================================================================== *)
(** ** Facts about texts and records *)
(* ================================================================== *)

Lemma text_eqb_eq (a b : text) : text_eqb a b = true <-> a = b.
Proof.
  unfold text_eqb. destruct (text_eq_dec a b); split; congruence.
Qed.

Lemma text_eqb_refl (a : text) : text_eqb a a = true.
Proof. now apply text_eqb_eq. Qed.

Lemma text_eqb_neq (a b : text) : a <> b -> text_eqb a b = false.
Proof.
  intros H. unfold text_eqb. now destruct (text_eq_dec a b).
Qed.

Lemma text_eqb_false (a b : text) : text_eqb a b = false -> a <> b.
Proof.
  intros H ->. now rewrite text_eqb_refl in H.
Qed.

Lemma occurs_false_In (c : N) (t : text) : occurs c t = false <-> ~ In c t.
Proof.
  unfold occurs. induction t as [|d t IH]; simpl.
  - split; [tauto | reflexivity].
  - rewrite orb_false_iff, IH, N.eqb_neq. split.
    + intros [H1 H2] [H | H]; [now apply H1 | now apply H2].
    + intros H. split; [intros E; apply H; now left | intros E; apply H; now right].
Qed.

Lemma occurs_cons (c d : N) (t : text) :
  occurs c (d :: t) = N.eqb c d || occurs c t.
Proof. reflexivity. Qed.

Lemma occurs_app (c : N) (a b : text) :
  occurs c (a ++ b) = occurs c a || occurs c b.
Proof. unfold occurs. apply existsb_app. Qed.

Lemma strip_prefix_app (p s : text) : strip_prefix p (p ++ s) = Some s.
Proof.
  induction p as [|a p IH]; simpl; [reflexivity|].
  now rewrite N.eqb_refl.
Qed.

Lemma strip_prefix_Some (p s r : text) :
  strip_prefix p s = Some r -> s = p ++ r.
Proof.
  revert s. induction p as [|a p IH]; simpl; intros s H.
  - now inversion H.
  - destruct s as [|b s]; [discriminate|].
    destruct (N.eqb_spec a b); [|discriminate].
    subst b. f_equal. now apply IH.
Qed.

Lemma starts_with_app (p s : text) : starts_with p (p ++ s) = true.
Proof. unfold starts_with. now rewrite strip_prefix_app. Qed.

Lemma starts_with_cons (a b : N) (p s : text) :
  starts_with (a :: p) (b :: s) = N.eqb a b && starts_with p s.
Proof.
  unfold starts_with. cbn [strip_prefix].
  destruct (N.eqb a b); reflexivity.
Qed.

Lemma starts_with_head (a b : N) (p s : text) :
  a <> b -> starts_with (a :: p) (b :: s) = false.
Proof.
  intros H. unfold starts_with. simpl.
  destruct (N.eqb_spec a b); [contradiction | reflexivity].
Qed.

Lemma skipn_app_length (a b : text) (n : nat) :
  skipn (length a + n) (a ++ b) = skipn n b.
Proof. induction a as [|c a IH]; simpl; auto. Qed.

Lemma skipn_past (a : text) (c : N) (b : text) :
  skipn (S (length a)) (a ++ c :: b) = b.
Proof.
  replace (S (length a)) with (length a + 1) by lia.
  now rewrite skipn_app_length.
Qed.

(** What [span] returns: the two parts make up the text, and every
    character of the first part satisfies the test. *)
Lemma span_spec (p : N -> bool) (s run rest : text) :
  span p s = (run, rest) -> s = run ++ rest /\ forallb p run = true.
Proof.
  revert run rest. induction s as [|c s IH]; intros run rest; cbn [span].
  - intros H. inversion H. auto.
  - destruct (p c) eqn:E.
    + destruct (span p s) as [run' rest'] eqn:Es.
      intros H. inversion H. subst.
      destruct (IH run' rest eq_refl) as [-> Hr].
      cbn [app forallb]. now rewrite E, Hr.
    + intros H. inversion H. auto.
Qed.

Section DictFacts.
Variable V : Type.

Lemma lookup_set_eq (k : text) (v : V) (d : dict V) :
  lookup k (set k v d) = Some v.
Proof.
  induction d as [|[k' v'] d IH]; simpl.
  - now rewrite text_eqb_refl.
  - destruct (text_eqb k' k) eqn:E; simpl; rewrite E; auto.
Qed.

Lemma lookup_set_ne (k k' : text) (v : V) (d : dict V) :
  k' <> k -> lookup k (set k' v d) = lookup k d.
Proof.
  intros Hne.
  induction d as [|[k0 v0] d IH]; simpl.
  - now rewrite text_eqb_neq.
  - destruct (text_eqb k0 k') eqn:E; simpl.
    + apply text_eqb_eq in E. subst k0.
      now rewrite text_eqb_neq.
    + now rewrite IH.
Qed.

Lemma lookup_None_keys (k : text) (d : dict V) :
  lookup k d = None <-> ~ In k (keys d).
Proof.
  induction d as [|[k' v'] d IH]; simpl.
  - tauto.
  - destruct (text_eqb k' k) eqn:E.
    + apply text_eqb_eq in E. split; [discriminate | tauto].
    + apply text_eqb_false in E. tauto.
Qed.

Lemma keys_set (k : text) (v : V) (d : dict V) (x : text) :
  In x (keys (set k v d)) <-> x = k \/ In x (keys d).
Proof.
  induction d as [|[k' v'] d IH]; simpl.
  - intuition.
  - destruct (text_eqb k' k) eqn:E; simpl.
    + apply text_eqb_eq in E. subst. intuition.
    + rewrite IH. intuition.
Qed.

End DictFacts.

(* ================================================================== *)
(** ** Record selector: properties *)
(* ================================================================== *)

Section SelectorProps.

(** The search returns the first record of the list whose chain value,
    taken through [str], equals the query. *)
Lemma find_record_first (data : list (dict value)) (invoice_id : text)
  (record : dict value) :
  find_record_by_invoice_id data invoice_id = Some record ->
  exists before after,
    data = before ++ record :: after
    /\ str (invoice_id_field record) = invoice_id
    /\ forall r, In r before -> str (invoice_id_field r) <> invoice_id.
Proof.
  induction data as [|r0 data IH]; simpl; [discriminate|].
  destruct (text_eqb (str (invoice_id_field r0)) invoice_id) eqn:E.
  - intros H. inversion H; subst r0.
    exists [], data. apply text_eqb_eq in E.
    repeat split; auto; intros r [].
  - intros H. destruct (IH H) as (before & after & -> & Hs & Hb).
    exists (r0 :: before), after.
    repeat split; auto.
    intros r [<- | Hr]; [now apply text_eqb_false | now apply Hb].
Qed.

Lemma find_record_none (data : list (dict value)) (invoice_id : text) :
  find_record_by_invoice_id data invoice_id = None <->
  forall r, In r data -> str (invoice_id_field r) <> invoice_id.
Proof.
  induction data as [|r0 data IH]; simpl.
  - split; [intros _ r [] | reflexivity].
  - destruct (text_eqb (str (invoice_id_field r0)) invoice_id) eqn:E.
    + apply text_eqb_eq in E. split; [discriminate|].
      intros H. exfalso. apply (H r0); auto.
    + apply text_eqb_false in E. rewrite IH. split.
      * intros H r [<- | Hr]; auto.
      * intros H r Hr. apply H. now right.
Qed.

(** A record without any of the five identifier fields makes the chain
    end on the [None] of its last operand. *)
Lemma chain_of_absent_fields (record : dict value) :
  lookup (lit "invoice_id") record = None ->
  lookup (lit "invoiceId") record = None ->
  lookup (lit "invoice") record = None ->
  lookup (lit "id") record = None ->
  lookup (lit "ID") record = None ->
  invoice_id_field record = VNone.
Proof.
  intros H1 H2 H3 H4 H5. unfold invoice_id_field, get.
  now rewrite H1, H2, H3, H4, H5.
Qed.

(** C4, on the code: a record that has none of the five identifier
    fields is listed by [get_invoice_ids] under no identifier, and yet
    [find_record_by_invoice_id] returns it for the query [None],
    because the chain of [or] ends on [None] and [str(None)] is the
    text [None]. The claim asks for nothing to be returned there. *)
Theorem find_record_returns_record_without_identifier
  (record : dict value) (rest : list (dict value)) :
  lookup (lit "invoice_id") record = None ->
  lookup (lit "invoiceId") record = None ->
  lookup (lit "invoice") record = None ->
  lookup (lit "id") record = None ->
  lookup (lit "ID") record = None ->
  get_invoice_ids [record] = []
  /\ find_record_by_invoice_id (record :: rest) (lit "None") = Some record.
Proof.
  intros H1 H2 H3 H4 H5.
  pose proof (chain_of_absent_fields record H1 H2 H3 H4 H5) as Hc.
  split.
  - unfold get_invoice_ids. simpl. now rewrite Hc.
  - simpl. now rewrite Hc.
Qed.

Lemma find_record_returns_record_without_identifier_witness :
  let record := [(lit "name", VStr (lit "x"))] in
  get_invoice_ids [record] = []
  /\ find_record_by_invoice_id [record] (lit "None") = Some record.
Proof.
  apply (find_record_returns_record_without_identifier
           [(lit "name", VStr (lit "x"))] []); reflexivity.
Defined.

End SelectorProps.

(* ================================================================== *)
(** ** Template renderer: the merged mapping *)
(* ================================================================== *)

Section MergedMapping.

Lemma lookup_app (V : Type) (k : text) (a b : dict V) :
  lookup k (a ++ b) =
  match lookup k a with Some v => Some v | None => lookup k b end.
Proof.
  induction a as [|[k' v'] a IH]; simpl; [reflexivity|].
  now destruct (text_eqb k' k).
Qed.

(** The copy loop leaves, for every key, the display text of the last
    value the record gives it. *)
Lemma copy_loop_lookup (k : text) (data : dict value) (acc : dict text) :
  lookup k
    (fold_left (fun td kv => set (fst kv) (display (snd kv)) td) data acc) =
  match lookup k (rev data) with
  | Some v => Some (display v)
  | None => lookup k acc
  end.
Proof.
  revert acc. induction data as [|[k0 v0] data IH]; intros acc; simpl.
  - reflexivity.
  - rewrite IH, lookup_app. destruct (lookup k (rev data)); [reflexivity|].
    simpl. destruct (text_eqb k0 k) eqn:E.
    + apply text_eqb_eq in E. subst. apply lookup_set_eq.
    + apply text_eqb_false in E. now apply lookup_set_ne.
Qed.

Lemma unique_keys_lookup_rev (k : text) (data : dict value) :
  unique_keys data = true -> lookup k (rev data) = lookup k data.
Proof.
  induction data as [|[k0 v0] data IH]; simpl; [reflexivity|].
  rewrite andb_true_iff, negb_true_iff. intros [Hk Hu].
  rewrite lookup_app, (IH Hu). simpl.
  destruct (text_eqb k0 k) eqn:E.
  - apply text_eqb_eq in E. subst k0.
    unfold mem in Hk. now destruct (lookup k data).
  - now destruct (lookup k data).
Qed.

Lemma copy_fields_lookup (k : text) (data : dict value) :
  unique_keys data = true ->
  lookup k (copy_fields data) = option_map display (lookup k data).
Proof.
  intros Hu. unfold copy_fields.
  rewrite copy_loop_lookup, (unique_keys_lookup_rev k data Hu).
  now destruct (lookup k data).
Qed.

Lemma template_data_tax_row (data : dict value) :
  lookup (lit "tax_row") (template_data data) = Some (tax_row data).
Proof.
  unfold template_data.
  rewrite lookup_set_ne by (vm_compute; discriminate).
  apply lookup_set_eq.
Qed.

Lemma template_data_total_row (data : dict value) :
  lookup (lit "total_row") (template_data data) = Some (total_row data).
Proof. unfold template_data. apply lookup_set_eq. Qed.

Lemma template_data_other (k : text) (data : dict value) :
  k <> lit "tax_row" -> k <> lit "total_row" ->
  lookup k (template_data data) = lookup k (copy_fields data).
Proof.
  intros H1 H2. unfold template_data.
  rewrite !lookup_set_ne by congruence. reflexivity.
Qed.

(** C5: in the merged mapping [tax_row] is bound, for a record that has
    a [tax] field other than [None], to the text of the source line by
    line: the opening of a [div] of class [amount-row] and of a [span],
    the label (the Cyrillic letters of the source, U+041D U+0414
    U+0421), a colon, a second [span] with [str] of the tax value, a
    space and the currency suffix (U+0440 U+0443 U+0431 and a full
    stop), and the two closing tags; and to the empty string for every
    other record. [total_row] follows the same rule from [total], with
    the class [amount-row total] and its own label. Both bindings hold
    whatever the record itself binds to [tax_row] and [total_row]: two
    records that agree on every other key get the same two rows. *)
Theorem derived_rows (data : dict value) :
  lookup (lit "tax_row") (template_data data) =
    Some (if mem (lit "tax") data && negb (is_none (get (lit "tax") data))
          then lit "<div class=" ++ [34%N] ++ lit "amount-row" ++ [34%N]
               ++ lit "><span>" ++ [1053; 1044; 1057]%N
               ++ lit ":</span><span>" ++ str (get (lit "tax") data)
               ++ [32; 1088; 1091; 1073; 46]%N ++ lit "</span></div>"
          else [])
  /\ lookup (lit "total_row") (template_data data) =
    Some (if mem (lit "total") data
             && negb (is_none (get (lit "total") data))
          then lit "<div class=" ++ [34%N] ++ lit "amount-row total" ++ [34%N]
               ++ lit "><span>" ++ [1048; 1090; 1086; 1075; 1086]%N
               ++ lit ":</span><span>" ++ str (get (lit "total") data)
               ++ [32; 1088; 1091; 1073; 46]%N ++ lit "</span></div>"
          else [])
  /\ (forall data',
        (forall k, k <> lit "tax_row" -> k <> lit "total_row" ->
                   lookup k data' = lookup k data) ->
        lookup (lit "tax_row") (template_data data') =
        lookup (lit "tax_row") (template_data data)
        /\ lookup (lit "total_row") (template_data data') =
           lookup (lit "total_row") (template_data data)).
Proof.
  split; [|split].
  - rewrite template_data_tax_row. unfold tax_row, has_non_null.
    destruct (mem (lit "tax") data && negb (is_none (get (lit "tax") data)));
      reflexivity.
  - rewrite template_data_total_row. unfold total_row, has_non_null.
    destruct (mem (lit "total") data
              && negb (is_none (get (lit "total") data)));
      reflexivity.
  - intros data' H.
    rewrite !template_data_tax_row, !template_data_total_row.
    unfold tax_row, total_row, has_non_null, mem, get.
    rewrite !H by (vm_compute; discriminate).
    split; reflexivity.
Qed.

Lemma derived_rows_witness :
  lookup (lit "tax_row")
    (template_data [(lit "tax", VStr (lit "100"));
                    (lit "tax_row", VStr (lit "mine"))]) =
    Some (lit "<div class=" ++ [34%N] ++ lit "amount-row" ++ [34%N]
          ++ lit "><span>" ++ [1053; 1044; 1057]%N
          ++ lit ":</span><span>100" ++ [32; 1088; 1091; 1073; 46]%N
          ++ lit "</span></div>")
  /\ lookup (lit "tax_row") (template_data [(lit "id", VInt 1)]) = Some []
  /\ lookup (lit "total_row")
       (template_data [(lit "tax", VNone); (lit "total", VInt 250)]) =
     Some (lit "<div class=" ++ [34%N] ++ lit "amount-row total" ++ [34%N]
           ++ lit "><span>" ++ [1048; 1090; 1086; 1075; 1086]%N
           ++ lit ":</span><span>250" ++ [32; 1088; 1091; 1073; 46]%N
           ++ lit "</span></div>")
  /\ lookup (lit "tax_row")
       (template_data [(lit "tax", VNone); (lit "total", VInt 250)]) =
     Some [].
Proof.
  split; [|split; [|split]].
  - exact (proj1 (derived_rows [(lit "tax", VStr (lit "100"));
                                (lit "tax_row", VStr (lit "mine"))])).
  - exact (proj1 (derived_rows [(lit "id", VInt 1)])).
  - exact (proj1 (proj2 (derived_rows [(lit "tax", VNone);
                                       (lit "total", VInt 250)]))).
  - exact (proj1 (derived_rows [(lit "tax", VNone);
                                (lit "total", VInt 250)])).
Defined.

(** C8: a NaN in [tax] is not [None], so [tax_row] is bound to the
    fragment around [str(nan)], the text [nan], while the field [tax]
    itself is bound to the empty string; the same for [total] and
    [total_row]. *)
Theorem nan_reaches_derived_rows (data : dict value) :
  unique_keys data = true ->
  (lookup (lit "tax") data = Some VNaN ->
     lookup (lit "tax_row") (template_data data) =
       Some (tax_fragment (lit "nan"))
     /\ tax_fragment (lit "nan") <> []
     /\ lookup (lit "tax") (template_data data) = Some [])
  /\ (lookup (lit "total") data = Some VNaN ->
     lookup (lit "total_row") (template_data data) =
       Some (total_fragment (lit "nan"))
     /\ total_fragment (lit "nan") <> []
     /\ lookup (lit "total") (template_data data) = Some []).
Proof.
  intros Hu. split; intros H.
  - rewrite template_data_tax_row.
    rewrite template_data_other by (vm_compute; discriminate).
    rewrite (copy_fields_lookup _ data Hu), H.
    unfold tax_row, has_non_null, mem, get. rewrite H.
    repeat split. discriminate.
  - rewrite template_data_total_row.
    rewrite template_data_other by (vm_compute; discriminate).
    rewrite (copy_fields_lookup _ data Hu), H.
    unfold total_row, has_non_null, mem, get. rewrite H.
    repeat split. discriminate.
Qed.

Lemma nan_reaches_derived_rows_witness :
  let data := [(lit "id", VInt 7); (lit "tax", VNaN); (lit "total", VNaN)] in
  lookup (lit "tax_row") (template_data data) = Some (tax_fragment (lit "nan"))
  /\ lookup (lit "total_row") (template_data data) =
     Some (total_fragment (lit "nan")).
Proof.
  destruct (nan_reaches_derived_rows
              [(lit "id", VInt 7); (lit "tax", VNaN); (lit "total", VNaN)]
              eq_refl) as [Htax Htotal].
  split.
  - apply (Htax eq_refl).
  - apply (Htotal eq_refl).
Defined.

End MergedMapping.

(* ================================================================== *)
(** ** Facts about the scanners *)
(* ================================================================== *)

Section ScanFacts.

Variable m : matcher.
Variable repl : text.

Lemma sub_from_skipn (n : nat) (s : text) :
  sub_from m repl n s = re_sub m repl (skipn n s).
Proof.
  revert n. induction s as [|c s IH]; intros [|n]; simpl; auto.
Qed.

Lemma re_sub_nil : re_sub m repl [] = [].
Proof. reflexivity. Qed.

(** At a match the replacement is written and the scan goes on after
    the match. *)
Lemma re_sub_hit (c : N) (s : text) (n : nat) :
  m (c :: s) = Some n ->
  re_sub m repl (c :: s) = repl ++ re_sub m repl (skipn (pred n) s).
Proof.
  intros H. unfold re_sub at 1. simpl. rewrite H.
  now rewrite sub_from_skipn.
Qed.

(** Without a match one character is copied. *)
Lemma re_sub_miss (c : N) (s : text) :
  m (c :: s) = None ->
  re_sub m repl (c :: s) = c :: re_sub m repl s.
Proof.
  intros H. unfold re_sub. simpl. now rewrite H.
Qed.

(** A stretch without the character the pattern starts with is copied. *)
Lemma re_sub_keeps_prefix (c : N) (a s : text) :
  fires_only_at m c -> occurs c a = false ->
  re_sub m repl (a ++ s) = a ++ re_sub m repl s.
Proof.
  intros Hm. induction a as [|d a IH]; simpl; intros Ha; [reflexivity|].
  apply orb_false_iff in Ha. destruct Ha as [Hd Ha].
  apply N.eqb_neq in Hd.
  rewrite re_sub_miss by (apply Hm; congruence).
  now rewrite IH.
Qed.

Lemma re_sub_keeps_all (c : N) (a : text) :
  fires_only_at m c -> occurs c a = false -> re_sub m repl a = a.
Proof.
  intros Hm Ha.
  rewrite <- (app_nil_r a) at 1.
  rewrite (re_sub_keeps_prefix a [] Hm Ha). now rewrite app_nil_r.
Qed.

End ScanFacts.

Section MatcherFacts.

Lemma literal_fires (c : N) (p : text) : fires_only_at (literal (c :: p)) c.
Proof.
  intros d s Hd. unfold literal.
  rewrite starts_with_head by congruence. reflexivity.
Qed.


(** A literal match is replaced and the scan resumes behind it. *)
Lemma replace_hit (c : N) (p new s : text) :
  replace (c :: p) new ((c :: p) ++ s) = new ++ replace (c :: p) new s.
Proof.
  unfold replace. simpl.
  rewrite (@re_sub_hit (literal (c :: p)) new c (p ++ s) (length (c :: p))).
  - simpl. rewrite skipn_app, skipn_all, Nat.sub_diag. reflexivity.
  - unfold literal.
    change (c :: p ++ s) with ((c :: p) ++ s).
    now rewrite starts_with_app.
Qed.


Lemma placeholder_fires (key : text) : fires_only_at (placeholder key) lbrace.
Proof.
  intros d s Hd. unfold placeholder.
  destruct (N.eqb_spec d lbrace); [contradiction | reflexivity].
Qed.



(** A placeholder pass copies a stretch without an opening brace. *)
Lemma substitute_key_keeps_prefix (key value a s : text) :
  occurs lbrace a = false ->
  substitute_key key value (a ++ s) = a ++ substitute_key key value s.
Proof.
  intros Ha. unfold substitute_key.
  apply re_sub_keeps_prefix with (c := lbrace);
    [apply placeholder_fires | exact Ha].
Qed.

Lemma substitute_keeps_prefix (td : dict text) (a s : text) :
  occurs lbrace a = false ->
  substitute td (a ++ s) = a ++ substitute td s.
Proof.
  intros Ha. unfold substitute. revert s.
  induction td as [|[k v] td IH]; intros s; simpl; [reflexivity|].
  rewrite substitute_key_keeps_prefix by exact Ha. apply IH.
Qed.

End MatcherFacts.

(* ================================================================== *)
(** ** Template renderer: reading the template *)
(* ================================================================== *)

Section ReadFailure.

(** C1, on the code: when reading the template raises, the handler
    prints the error and then evaluates [return template] although
    [template] was never assigned, so the call ends in an
    [UnboundLocalError] that reaches the caller. The claim asks for a
    returned text there. *)
Theorem render_template_raises_when_read_fails
  (w : world) (template_path : path) (data : dict value) (e : exn) :
  read_text w template_path = Raised e ->
  render_template w template_path data =
    (Raised (UnboundLocalError (lit "template")),
     [PrintRenderError e; PrintTraceback e]).
Proof.
  intros H. unfold render_template. now rewrite H.
Qed.

Lemma render_template_raises_when_read_fails_witness :
  let w := {| files := fun _ => None;
              read_error := fun _ => None;
              unlink_error := fun _ => None;
              write_error := fun _ => None |} in
  render_template w (lit "templates/missing.html") [(lit "id", VInt 1)] =
    (Raised (UnboundLocalError (lit "template")),
     [PrintRenderError FileNotFoundError; PrintTraceback FileNotFoundError]).
Proof.
  apply (@render_template_raises_when_read_fails
           {| files := fun _ => None;
              read_error := fun _ => None;
              unlink_error := fun _ => None;
              write_error := fun _ => None |}
           (lit "templates/missing.html") [(lit "id", VInt 1)]
           FileNotFoundError).
  reflexivity.
Defined.

(** When the file can be read, the call returns the rendered text. *)
Lemma render_template_returns (w : world) (template_path : path)
  (data : dict value) (template : text) :
  read_text w template_path = Returned template ->
  fst (render_template w template_path data) =
    Returned (render_text template data).
Proof.
  intros H. unfold render_template. now rewrite H.
Qed.

End ReadFailure.

(* ================================================================== *)
(** ** Template renderer: the order of the passes *)
(* ================================================================== *)

Section PassOrder.

Lemma key_then_rbrace (k k' s2 : text) :
  occurs rbrace k = false ->
  k ++ [rbrace] = k' ++ rbrace :: s2 -> k' = k.
Proof.
  revert k'. induction k as [|a k IH]; intros k' Hk E.
  - destruct k' as [|b k']; [reflexivity|].
    simpl in E. inversion E. now destruct k'.
  - simpl in Hk. apply orb_false_iff in Hk. destruct Hk as [Ha Hk].
    destruct k' as [|b k'].
    + simpl in E. inversion E. subst a. cbv in Ha. discriminate.
    + simpl in E. inversion E. f_equal. now apply IH.
Qed.

(** The pass of another key leaves the placeholder of [k] alone. *)
Lemma placeholder_of_other_key (k k' : text) :
  clean_key k = true -> k' <> k ->
  placeholder k' (lbrace :: k ++ [rbrace]) = None.
Proof.
  unfold clean_key. rewrite !andb_true_iff, !negb_true_iff.
  intros [[Hl Hr] Hc] Hne. unfold placeholder.
  rewrite N.eqb_refl.
  destruct (strip_prefix k' (k ++ [rbrace])) as [[|d s2]|] eqn:E;
    try reflexivity.
  apply strip_prefix_Some in E.
  destruct (N.eqb_spec d rbrace) as [-> | Hd].
  - exfalso. apply Hne. now apply key_then_rbrace with (s2 := s2).
  - destruct (N.eqb_spec d colon) as [-> | Hd']; [|reflexivity].
    exfalso.
    assert (Hin : In colon (k ++ [rbrace])) by (rewrite E; apply in_elt).
    apply in_app_or in Hin. destruct Hin as [Hin | [Hin | []]].
    + apply occurs_false_In in Hc. contradiction.
    + discriminate.
Qed.



End PassOrder.

(* ================================================================== *)
(** ** Template renderer: escaped braces *)
(* ================================================================== *)

Section EscapedBraces.

Lemma plain_parts (t : text) :
  plain t = true ->
  occurs lbrace t = false /\ occurs rbrace t = false
  /\ occurs NUL t = false.
Proof.
  unfold plain. rewrite !andb_true_iff, !negb_true_iff. tauto.
Qed.


End EscapedBraces.

(* ================================================================== *)
(** ** Template renderer: the leftover scan *)
(* ================================================================== *)

Section LeftoverScan.

Lemma findall_from_skipn (m : text -> option (nat * text)) (n : nat)
  (s : text) :
  findall_from m n s = findall m (skipn n s).
Proof.
  revert n. induction s as [|c s IH]; intros [|n]; simpl; auto.
Qed.

Lemma findall_hit (m : text -> option (nat * text)) (c : N) (s : text)
  (n : nat) (g : text) :
  m (c :: s) = Some (n, g) ->
  findall m (c :: s) = g :: findall m (skipn (pred n) s).
Proof.
  intros H. unfold findall at 1. simpl. rewrite H.
  now rewrite findall_from_skipn.
Qed.

Lemma findall_miss (m : text -> option (nat * text)) (c : N) (s : text) :
  m (c :: s) = None -> findall m (c :: s) = findall m s.
Proof.
  intros H. unfold findall. simpl. now rewrite H.
Qed.

Lemma braced_ident_needs_brace (d : N) (s : text) :
  d <> lbrace -> braced_ident (d :: s) = None.
Proof.
  intros Hd. unfold braced_ident. destruct s as [|e s]; [reflexivity|].
  destruct (N.eqb_spec d lbrace); [contradiction | reflexivity].
Qed.

Lemma findall_keeps_going (a s : text) :
  occurs lbrace a = false ->
  findall braced_ident (a ++ s) = findall braced_ident s.
Proof.
  induction a as [|d a IH]; intros Ha; [reflexivity|].
  rewrite occurs_cons in Ha.
  apply orb_false_iff in Ha. destruct Ha as [Hd Ha].
  apply N.eqb_neq in Hd. cbn [app].
  rewrite findall_miss by (apply braced_ident_needs_brace; congruence).
  now apply IH.
Qed.

Lemma ident_start_is_plain (c : N) :
  is_ident_start c = true -> c <> lbrace /\ c <> rbrace /\ c <> NUL /\ c <> lt.
Proof.
  unfold is_ident_start, lbrace, rbrace, NUL, lt.
  rewrite !orb_true_iff, !andb_true_iff, !N.leb_le, N.eqb_eq. lia.
Qed.

Lemma ident_char_is_plain (c : N) :
  is_ident_char c = true -> c <> lbrace /\ c <> rbrace /\ c <> NUL /\ c <> lt.
Proof.
  unfold is_ident_char. rewrite orb_true_iff, andb_true_iff, !N.leb_le.
  intros [H | H]; [now apply ident_start_is_plain|].
  unfold lbrace, rbrace, NUL, lt. lia.
Qed.

Lemma ident_chars_free_of (c : N) (t : text) :
  (forall d, is_ident_char d = true -> d <> c) ->
  forallb is_ident_char t = true -> occurs c t = false.
Proof.
  intros Hc. induction t as [|d t IH]; simpl; [reflexivity|].
  rewrite andb_true_iff. intros [Hd Ht].
  rewrite IH by exact Ht. rewrite orb_false_r.
  apply N.eqb_neq. intros E. apply (Hc d Hd). congruence.
Qed.

Lemma identifier_chars (name : text) :
  is_identifier name = true -> forallb is_ident_char name = true.
Proof.
  destruct name as [|c rest]; simpl; [discriminate|].
  rewrite !andb_true_iff. intros [Hc Hr]. split; [|exact Hr].
  unfold is_ident_char. now rewrite Hc.
Qed.

Lemma identifier_free_of (c : N) (name : text) :
  (forall d, is_ident_char d = true -> d <> c) ->
  is_identifier name = true -> occurs c name = false.
Proof.
  intros Hc Hn. apply ident_chars_free_of; [exact Hc|].
  now apply identifier_chars.
Qed.

Lemma identifier_is_plain (name : text) :
  is_identifier name = true -> plain name = true.
Proof.
  intros Hn. unfold plain.
  assert (H1 : occurs lbrace name = false)
    by (apply identifier_free_of; [|exact Hn];
        intros d Hd; apply ident_char_is_plain in Hd; tauto).
  assert (H2 : occurs rbrace name = false)
    by (apply identifier_free_of; [|exact Hn];
        intros d Hd; apply ident_char_is_plain in Hd; tauto).
  assert (H3 : occurs NUL name = false)
    by (apply identifier_free_of; [|exact Hn];
        intros d Hd; apply ident_char_is_plain in Hd; tauto).
  now rewrite H1, H2, H3.
Qed.

Lemma span_ident_run (run s : text) :
  forallb is_ident_char run = true ->
  span is_ident_char (run ++ rbrace :: s) = (run, rbrace :: s).
Proof.
  induction run as [|c run IH]; simpl; intros H; [reflexivity|].
  apply andb_true_iff in H. destruct H as [Hc Hr].
  now rewrite Hc, IH.
Qed.

(** A name in single braces is a match of the leftover pattern. *)
Lemma braced_ident_of_identifier (name s : text) :
  is_identifier name = true ->
  braced_ident (lbrace :: name ++ rbrace :: s) =
  Some (2 + length name, name).
Proof.
  destruct name as [|c rest]; simpl; [discriminate|].
  rewrite andb_true_iff. intros [Hc Hr].
  rewrite Hc, (span_ident_run rest s Hr).
  reflexivity.
Qed.


Lemma to_lower_lt (d : N) : to_lower d = lt -> d = lt.
Proof.
  unfold to_lower, lt.
  destruct ((65 <=? d) && (d <=? 90))%N eqn:E1.
  - apply andb_true_iff in E1. rewrite !N.leb_le in E1. lia.
  - destruct (N.eqb_spec d 304); [discriminate|].
    destruct (N.eqb_spec d 8490); [discriminate | auto].
Qed.

Lemma style_block_fires : fires_only_at style_block lt.
Proof.
  intros d s Hd. unfold style_block.
  change (lit "<style") with (lt :: lit "style").
  cbn [ci_strip_prefix].
  destruct (ci_eq lt d) eqn:E; [|reflexivity].
  exfalso. apply Hd. unfold ci_eq in E.
  change ((lt =? 105) && (d =? 305))%N with false in E.
  change ((lt =? 115) && (d =? 383))%N with false in E.
  rewrite !orb_false_r in E. apply N.eqb_eq in E.
  now apply to_lower_lt.
Qed.

(** No prefix of a pattern whose characters differ from the opening
    brace reaches across an opening brace. *)
Lemma ci_strip_prefix_before_brace (p a s : text) :
  forallb (fun c => negb (ci_eq c lbrace)) p = true ->
  ci_strip_prefix p a = None ->
  ci_strip_prefix p (a ++ lbrace :: s) = None.
Proof.
  revert a. induction p as [|c p IH]; intros a Hp Ha; simpl in *.
  - discriminate.
  - apply andb_true_iff in Hp. destruct Hp as [Hc Hp].
    apply negb_true_iff in Hc.
    destruct a as [|b a]; simpl.
    + now rewrite Hc.
    + destruct (ci_eq c b); [now apply IH | reflexivity].
Qed.

Lemma style_scan_stops_at_brace (pre s : text) :
  opens_style pre = false ->
  non_style_content (pre ++ lbrace :: s) =
  pre ++ non_style_content (lbrace :: s).
Proof.
  unfold opens_style, non_style_content.
  induction pre as [|c pre IH]; intros H; [reflexivity|].
  cbn [ci_find] in H.
  destruct (ci_starts_with (lit "<style") (c :: pre)) eqn:E;
    [discriminate|].
  destruct (ci_find (lit "<style") pre) eqn:F; [discriminate|].
  change ((c :: pre) ++ lbrace :: s) with (c :: (pre ++ lbrace :: s)).
  rewrite re_sub_miss.
  - simpl. f_equal. apply IH. reflexivity.
  - unfold style_block.
    change (c :: pre ++ lbrace :: s) with ((c :: pre) ++ lbrace :: s).
    rewrite ci_strip_prefix_before_brace; [reflexivity | reflexivity |].
    unfold ci_starts_with in E.
    now destruct (ci_strip_prefix (lit "<style") (c :: pre)).
Qed.


Lemma remaining_placeholders_spec (td : dict text) (rendered name : text) :
  In name (remaining_placeholders td rendered) <->
  In name (findall braced_ident (non_style_content rendered))
  /\ mem name td = false.
Proof.
  unfold remaining_placeholders.
  rewrite filter_In, nodup_In, negb_true_iff. reflexivity.
Qed.
End LeftoverScan.

(* ================================================================== *)
(** ** Template renderer: style blocks *)
(* ================================================================== *)

Section StyleBlocks.


Lemma until_absent (c : N) (s : text) :
  occurs c s = false -> until c s = None.
Proof.
  induction s as [|d s IH]; intros Hs; cbn [until]; [reflexivity|].
  rewrite occurs_cons in Hs. apply orb_false_iff in Hs.
  destruct Hs as [Hd Hs]. rewrite N.eqb_sym in Hd.
  now rewrite Hd, IH.
Qed.

Lemma until_app_free (c : N) (s suffix : text) :
  occurs c suffix = false -> until c (s ++ suffix) = until c s.
Proof.
  intros Hs. induction s as [|d s IH]; cbn [app until].
  - now apply until_absent.
  - destruct (N.eqb d c); [reflexivity | now rewrite IH].
Qed.



Lemma strip_prefix_app_l (k x suffix r : text) :
  strip_prefix k x = Some r ->
  strip_prefix k (x ++ suffix) = Some (r ++ suffix).
Proof.
  revert x. induction k as [|a k IH]; intros x; cbn [strip_prefix].
  - intros H. now inversion H.
  - destruct x as [|b x]; [discriminate|]. cbn [app].
    destruct (N.eqb a b); [apply IH | discriminate].
Qed.

Lemma strip_prefix_into_suffix (k x suffix r : text) :
  strip_prefix k x = None ->
  strip_prefix k (x ++ suffix) = Some r ->
  exists k2, suffix = k2 ++ r.
Proof.
  revert x. induction k as [|a k IH]; intros x; cbn [strip_prefix].
  - discriminate.
  - destruct x as [|b x]; cbn [app].
    + intros _ H. exists (a :: k).
      now apply (strip_prefix_Some (a :: k)).
    + destruct (N.eqb a b); [apply IH | discriminate].
Qed.

(** A placeholder never ends in a text without a closing brace, so such
    a text behind the scanned one changes no answer of the pattern. *)
Lemma placeholder_blind_to (key suffix : text) :
  occurs rbrace suffix = false -> blind_to (placeholder key) suffix.
Proof.
  intros Hs x Hx. destruct x as [|c x1]; [congruence|].
  unfold placeholder. cbn [app].
  destruct (N.eqb c lbrace); [|reflexivity].
  destruct (strip_prefix key x1) as [r|] eqn:E.
  - rewrite (strip_prefix_app_l _ _ suffix E).
    destruct r as [|d s2]; cbn [app].
    + destruct suffix as [|d s2]; [reflexivity|].
      rewrite occurs_cons in Hs. apply orb_false_iff in Hs.
      destruct Hs as [Hd Hs]. rewrite N.eqb_sym in Hd. rewrite Hd.
      rewrite (until_absent _ _ Hs). now destruct (N.eqb d colon).
    + now rewrite until_app_free.
  - destruct (strip_prefix key (x1 ++ suffix)) as [[|d s2]|] eqn:E2;
      try reflexivity.
    destruct (strip_prefix_into_suffix _ _ _ E E2) as [k2 Hk2].
    rewrite Hk2, occurs_app, occurs_cons in Hs.
    apply orb_false_iff in Hs. destruct Hs as [_ Hs].
    apply orb_false_iff in Hs. destruct Hs as [Hd Hs].
    rewrite N.eqb_sym in Hd. rewrite Hd.
    rewrite (until_absent _ _ Hs). now destruct (N.eqb d colon).
Qed.





Lemma substitute_key_bare (key value b : text) :
  substitute_key key value (lbrace :: key ++ rbrace :: b) =
  value ++ substitute_key key value b.
Proof.
  unfold substitute_key.
  rewrite (@re_sub_hit (placeholder key) value lbrace (key ++ rbrace :: b)
             (2 + length key)).
  - change (Nat.pred (2 + length key)) with (S (length key)).
    now rewrite skipn_past.
  - unfold placeholder. rewrite N.eqb_refl, strip_prefix_app.
    now rewrite N.eqb_refl.
Qed.





End StyleBlocks.

(* ================================================================== *)
(** ** Scans on the two sides of a cut *)
(* ================================================================== *)

Section Boundaries.








End Boundaries.

Section ProtectSplits.







End ProtectSplits.

Section SubstituteSplits.


Lemma substitute_app (td1 td2 : dict text) (r : text) :
  substitute (td1 ++ td2) r = substitute td2 (substitute td1 r).
Proof. unfold substitute. apply fold_left_app. Qed.

















End SubstituteSplits.

Section RestoreSplits.









End RestoreSplits.

(* ================================================================== *)
(** ** Template renderer: the passes around a token and a placeholder *)
(* ================================================================== *)

Section AroundToken.





End AroundToken.

Section AroundPlaceholder.










End AroundPlaceholder.

Section TokenInFormat.



End TokenInFormat.

(* ================================================================== *)
(** ** Leftover scan: style blocks and names on the two sides of a cut *)
(* ================================================================== *)

Section StyleSplits.












End StyleSplits.

Section FindallSplits.






End FindallSplits.

(* ================================================================== *)
(** ** Template renderer: the value of a key and the later passes *)
(* ================================================================== *)

Section PassOrderClaim.




End PassOrderClaim.

(* ================================================================== *)
(** ** Template renderer: escaped braces *)
(* ================================================================== *)

Section EscapedTokens.







(** Two markers share their NUL delimiter when only the letters of a
    marker stand between two tokens: the first token does not come back
    and its identifier is not reported either. *)
Example adjacent_markers_collide :
  marker_clash (substitute (template_data []) (protect []))
    (substitute (template_data []) (protect (lit "OPEN{{b}}"))) = true
  /\ render_text (lit "{{a}}OPEN{{b}}") [] =
     lit "{{a" ++ [NUL] ++ lit "CLOSE{{OPEN" ++ [NUL] ++ lit "b}}"
  /\ remaining_placeholders (template_data [])
       (render_text (lit "{{a}}OPEN{{b}}") []) = [].
Proof. repeat split; reflexivity. Qed.

End EscapedTokens.

(* ================================================================== *)
(** ** Template renderer: escaped tokens in the leftover scan *)
(* ================================================================== *)

Section ReportedTokens.





End ReportedTokens.

(* ================================================================== *)
(** ** Template renderer: style blocks in the passes and in the scan *)
(* ================================================================== *)

Section StyleBlockClaim.










(** The rendered text of a template with a declaration block whose
    first property is a field of the record. *)
Example css_declaration_is_substituted :
  render_text (lit "<style>p {color: red}</style><p>{color}</p>")
    [(lit "color", VStr (lit "blue"))] =
  lit "<style>p blue</style><p>blue</p>".
Proof. reflexivity. Qed.

End StyleBlockClaim.

(* ================================================================== *)
(** ** Document generator: the injected styles *)
(* ================================================================== *)

Section InjectedStyles.

Lemma contains_unfold (p s : text) :
  contains p s =
  starts_with p s
  || match s with [] => false | _ :: s' => contains p s' end.
Proof. destruct s; reflexivity. Qed.

Lemma contains_here (p b : text) : contains p (p ++ b) = true.
Proof. now rewrite contains_unfold, starts_with_app. Qed.

Lemma contains_skip (p a s : text) :
  contains p s = true -> contains p (a ++ s) = true.
Proof.
  intros H. induction a as [|c a IH]; cbn [app]; [exact H|].
  rewrite contains_unfold, IH. apply orb_true_r.
Qed.

Lemma starts_with_longer (p u v : text) :
  starts_with p u = false -> length p <= length u ->
  starts_with p (u ++ v) = false.
Proof.
  revert u. induction p as [|a p IH]; intros u Hs Hl.
  - discriminate.
  - destruct u as [|b u]; [cbn [length] in Hl; lia|].
    cbn [app]. rewrite starts_with_cons in *.
    destruct (N.eqb a b); [|reflexivity].
    apply IH; [exact Hs | cbn [length] in Hl; lia].
Qed.

(** Without an occurrence of the pattern nothing is replaced. *)
Lemma replace_absent (c : N) (p new s : text) :
  contains (c :: p) s = false -> replace (c :: p) new s = s.
Proof.
  unfold replace. induction s as [|d s IH]; intros H; [reflexivity|].
  rewrite contains_unfold in H. apply orb_false_iff in H.
  destruct H as [Hs Hc].
  rewrite re_sub_miss by (unfold literal; now rewrite Hs).
  now rewrite IH.
Qed.

(** The first occurrence of the pattern is replaced where it stands. *)
Lemma replace_first_occurrence (c z : N) (p q new a b : text) :
  c :: p = q ++ [z] ->
  contains (c :: p) (a ++ q) = false ->
  replace (c :: p) new (a ++ (c :: p) ++ b) =
  a ++ new ++ replace (c :: p) new b.
Proof.
  intros Hp. induction a as [|d a IH]; intros H.
  - apply replace_hit.
  - change ((d :: a) ++ (c :: p) ++ b) with (d :: (a ++ (c :: p) ++ b)).
    change ((d :: a) ++ q) with (d :: (a ++ q)) in H.
    rewrite contains_unfold in H.
    apply orb_false_iff in H. destruct H as [Hs Hc].
    unfold replace in *. rewrite re_sub_miss.
    + cbn [app]. f_equal. now apply IH.
    + unfold literal.
      assert (E : d :: (a ++ (c :: p) ++ b) = (d :: (a ++ q)) ++ z :: b).
      { rewrite Hp. cbn [app]. f_equal.
        now rewrite <- !app_assoc. }
      rewrite E, starts_with_longer; [reflexivity | exact Hs |].
      rewrite Hp. cbn [length]. rewrite !length_app. cbn [length]. lia.
Qed.

Lemma style_tag_sets_page (css family : text) :
  contains (lit "size: A4;") (style_tag css family) = true
  /\ contains (lit "margin: 2cm;") (style_tag css family) = true
  /\ contains (lit "font-size: 12pt;") (style_tag css family) = true
  /\ contains (lit "font-family: " ++ family ++ lit " !important;")
       (style_tag css family) = true.
Proof.
  unfold style_tag. repeat split.
  - repeat first [apply contains_here | apply contains_skip].
  - repeat first [apply contains_here | apply contains_skip].
  - repeat first [apply contains_here | apply contains_skip].
  - do 21 apply contains_skip.
    rewrite (app_assoc family).
    rewrite (app_assoc (lit "font-family: ") (family ++ lit " !important;")).
    apply contains_here.
Qed.

(** C6, as amended: when neither [<style>] nor [<STYLE>] occurs in the
    HTML, the default stylesheet (page size A4, margins of 2cm, body
    text of 12pt, the forced font family) goes before [</head>] and
    [</HEAD>] when one of these two spellings occurs, otherwise behind
    [<body>] and [<BODY>] when one of these occurs, otherwise in front
    of the text. With a single anchor the stylesheet stands right
    before [</head>], or right behind [<body>]. *)
Theorem default_stylesheet_is_injected (cfg : config) (w : world)
  (html : text) :
  no_style_tag html = true ->
  let block := style_tag (font_face_css cfg w) (font_family cfg) in
  (has_head html = true ->
     add_styles cfg w html = into_head block html)
  /\ (has_head html = false -> has_body html = true ->
     add_styles cfg w html = into_body block html)
  /\ (has_head html = false -> has_body html = false ->
     add_styles cfg w html = block ++ html)
  /\ (forall a b,
        html = a ++ lit "</head>" ++ b ->
        contains (lit "</head>") (a ++ lit "</head") = false ->
        contains (lit "</head>") b = false ->
        contains (lit "</HEAD>") (a ++ block ++ lit "</head>" ++ b) = false ->
        add_styles cfg w html = a ++ block ++ lit "</head>" ++ b)
  /\ (forall a b,
        has_head html = false ->
        html = a ++ lit "<body>" ++ b ->
        contains (lit "<body>") (a ++ lit "<body") = false ->
        contains (lit "<body>") b = false ->
        contains (lit "<BODY>") (a ++ lit "<body>" ++ block ++ b) = false ->
        add_styles cfg w html = a ++ lit "<body>" ++ block ++ b)
  /\ contains (lit "size: A4;") block = true
  /\ contains (lit "margin: 2cm;") block = true
  /\ contains (lit "font-size: 12pt;") block = true
  /\ contains (lit "font-family: " ++ font_family cfg ++ lit " !important;")
       block = true.
Proof.
  intros Hns block. unfold add_styles. rewrite Hns. fold block.
  split; [intros H; now rewrite H|].
  split; [intros H1 H2; now rewrite H1, H2|].
  split; [intros H1 H2; now rewrite H1, H2|].
  split; [|split].
  - intros a b -> Ha Hb Hup.
    assert (Hh : has_head (a ++ lit "</head>" ++ b) = true).
    { unfold has_head. rewrite contains_skip by apply contains_here.
      reflexivity. }
    rewrite Hh. unfold into_head.
    change (lit "</head>") with (lt :: lit "/head>") in *.
    rewrite (@replace_first_occurrence lt gt (lit "/head>") (lit "</head")
               (block ++ lt :: lit "/head>") a b eq_refl Ha).
    rewrite (@replace_absent lt (lit "/head>") _ b Hb).
    rewrite <- app_assoc.
    change (lit "</HEAD>") with (lt :: lit "/HEAD>") in *.
    apply replace_absent. exact Hup.
  - intros a b Hh -> Ha Hb Hup.
    assert (Hbd : has_body (a ++ lit "<body>" ++ b) = true).
    { unfold has_body. rewrite contains_skip by apply contains_here.
      reflexivity. }
    rewrite Hh, Hbd. unfold into_body.
    change (lit "<body>") with (lt :: lit "body>") in *.
    rewrite (@replace_first_occurrence lt gt (lit "body>") (lit "<body")
               ((lt :: lit "body>") ++ block) a b eq_refl Ha).
    rewrite (@replace_absent lt (lit "body>") _ b Hb).
    rewrite <- app_assoc.
    change (lit "<BODY>") with (lt :: lit "BODY>") in *.
    apply replace_absent. exact Hup.
  - apply style_tag_sets_page.
Qed.

Lemma default_stylesheet_is_injected_witness :
  let cfg := {| CYRILLIC_FONT_PATH := None; on_windows := false |} in
  let w := {| files := fun _ => None;
              read_error := fun _ => None;
              unlink_error := fun _ => None;
              write_error := fun _ => None |} in
  add_styles cfg w (lit "<html><head></head><body>x</body></html>") =
  lit "<html><head>"
  ++ style_tag (font_face_css cfg w) (font_family cfg)
  ++ lit "</head><body>x</body></html>".
Proof.
  intros cfg w.
  destruct (@default_stylesheet_is_injected cfg w
              (lit "<html><head></head><body>x</body></html>") eq_refl)
    as (_ & _ & _ & Hhead & _).
  apply (Hhead (lit "<html><head>") (lit "<body>x</body></html>"));
    reflexivity.
Defined.

(** C6, as stated, fails: a closing head tag in mixed case is there for
    a reader who ignores case, but the code looks for the two spellings
    [</head>] and [</HEAD>] only, and puts the stylesheet behind
    [<body>] instead. *)
Lemma mixed_case_head_is_missed :
  let cfg := {| CYRILLIC_FONT_PATH := None; on_windows := false |} in
  let w := {| files := fun _ => None;
              read_error := fun _ => None;
              unlink_error := fun _ => None;
              write_error := fun _ => None |} in
  let block := style_tag (font_face_css cfg w) (font_family cfg) in
  let html := lit "<Head></Head><body></body>" in
  opens_style html = false
  /\ ci_find (lit "</head>") html = Some 6
  /\ add_styles cfg w html = lit "<Head></Head><body>" ++ block ++ lit "</body>"
  /\ add_styles cfg w html <> lit "<Head>" ++ block ++ lit "</Head><body></body>".
Proof.
  repeat split; try reflexivity.
  intros H. vm_compute in H. discriminate H.
Qed.

End InjectedStyles.

(* ================================================================== *)
(** ** Document generator: the output file *)
(* ================================================================== *)

Section OutputFile.

Variable pisa : text -> pisa_status.
Variable cfg : config.







(** The run of [generate_pdf], case by case. *)
Lemma generate_pdf_unfolded (w : world) (html : text) (output_path : path) :
  generate_pdf pisa cfg html output_path w =
  let status := pisa (add_styles cfg w html) in
  let present := exists_ w output_path in
  match (if present then unlink_error w output_path else None) with
  | Some e =>
      (Raised e, w,
       (if is_permission_error e
        then [PrintCannotRemove output_path; PrintCloseFileAndRetry]
        else []) ++ failure_report e)
  | None =>
      let w1 := if present then update_file w output_path None else w in
      let removal := if present then [Unlinked output_path] else [] in
      match write_error w output_path with
      | Some e =>
          (Raised e, w1,
           removal
           ++ (if is_permission_error e
               then [PrintNoAccess output_path; PrintPossibleCauses;
                     PrintRetryHint output_path]
               else [])
           ++ failure_report e)
      | None =>
          let w3 :=
            update_file (update_file w1 output_path (Some []))
              output_path (Some (pdf_bytes status)) in
          if Z.eqb (err status) 0 then
            (Returned tt, w3,
             removal
             ++ [OpenedForWriting output_path;
                 Wrote output_path (pdf_bytes status)]
             ++ (if Z.eqb (warn status) 0 then []
                 else [PrintPdfWarning (warn status)])
             ++ [PrintPdfCreated output_path])
          else
            (Raised (PdfError (err status)), w3,
             removal
             ++ [OpenedForWriting output_path;
                 Wrote output_path (pdf_bytes status)]
             ++ failure_report (PdfError (err status)))
      end
  end.
Proof.
  unfold generate_pdf, try_except, bind, when, styled, path_exists,
    do_unlink, do_open_wb, do_write, emit, raise, ret, unlink, open_wb,
    exists_, failure_report.
  cbv zeta.
  destruct (files w output_path) as [c|] eqn:Hf; cbn -[add_styles].
  - destruct (unlink_error w output_path) as [e|] eqn:Hu;
      cbn -[add_styles].
    + now destruct e.
    + rewrite Hf. cbn -[add_styles].
      destruct (write_error w output_path) as [e|] eqn:Hw;
        cbn -[add_styles].
      * now destruct e.
      * destruct (Z.eqb (err (pisa (add_styles cfg w html))) 0);
          cbn -[add_styles]; [|reflexivity].
        now destruct (Z.eqb (warn (pisa (add_styles cfg w html))) 0).
  - destruct (write_error w output_path) as [e|] eqn:Hw;
      cbn -[add_styles].
    + now destruct e.
    + destruct (Z.eqb (err (pisa (add_styles cfg w html))) 0);
        cbn -[add_styles]; [|reflexivity].
      now destruct (Z.eqb (warn (pisa (add_styles cfg w html))) 0).
Qed.


End OutputFile.



(* ################################################################## *)
(** * Part III: further properties of the code *)
(* ################################################################## *)

(* ================================================================== *)
(** ** Record selector: the chain, the list of identifiers, the search *)
(* ================================================================== *)

Section SelectorMore.

(** X1: the chain of [or] gives the value of the first of the five
    fields, in the order [invoice_id], [invoiceId], [invoice], [id],
    [ID], whose value is true; when none is true it gives what
    [record.get('ID')] gives, be it [None] or a false value. The chain
    is true exactly when one of the five fields is. *)
Theorem invoice_id_chain_takes_first_truthy (record : dict value) :
  invoice_id_field record =
    match find truthy (map (fun f => get f record) identifier_fields) with
    | Some v => v
    | None => get (lit "ID") record
    end
  /\ truthy (invoice_id_field record) =
     existsb (fun f => truthy (get f record)) identifier_fields.
Proof.
  unfold invoice_id_field, py_or, identifier_fields.
  cbn [map find existsb].
  destruct (truthy (get (lit "invoice_id") record)) eqn:E1;
    destruct (truthy (get (lit "invoiceId") record)) eqn:E2;
    destruct (truthy (get (lit "invoice") record)) eqn:E3;
    destruct (truthy (get (lit "id") record)) eqn:E4;
    destruct (truthy (get (lit "ID") record)) eqn:E5;
    cbn [orb];
    repeat (progress (cbv iota; rewrite ?E1, ?E2, ?E3, ?E4, ?E5));
    split; reflexivity.
Qed.

(** X2: the search returns a record exactly when that record is the
    first of the list whose chain value, taken through [str], equals
    the query, and returns nothing exactly when no record of the list
    is such. *)
Theorem find_record_is_first_match (data : list (dict value))
  (invoice_id : text) :
  (forall record,
     find_record_by_invoice_id data invoice_id = Some record <->
     exists before after,
       data = before ++ record :: after
       /\ str (invoice_id_field record) = invoice_id
       /\ forall r, In r before -> str (invoice_id_field r) <> invoice_id)
  /\ (find_record_by_invoice_id data invoice_id = None <->
      forall r, In r data -> str (invoice_id_field r) <> invoice_id).
Proof.
  split; [|apply find_record_none].
  intros record. split; [apply find_record_first|].
  intros (before & after & -> & Hs & Hb).
  induction before as [|r0 before IH]; cbn [app find_record_by_invoice_id].
  - now rewrite (proj2 (text_eqb_eq _ _) Hs).
  - rewrite text_eqb_neq by (apply Hb; now left).
    apply IH. intros r Hr. apply Hb. now right.
Qed.

Lemma text_leb_total (a b : text) :
  text_leb a b = false -> text_leb b a = true.
Proof.
  revert b. induction a as [|x a IH]; intros [|y b]; cbn [text_leb];
    try discriminate; try reflexivity.
  destruct (N.ltb_spec x y); [discriminate|].
  destruct (N.eqb_spec x y) as [E|E].
  - subst y. rewrite N.ltb_irrefl, N.eqb_refl. apply IH.
  - intros _. destruct (N.ltb_spec y x); [reflexivity | lia].
Qed.

Lemma text_leb_trans (a b c : text) :
  text_leb a b = true -> text_leb b c = true -> text_leb a c = true.
Proof.
  revert b c. induction a as [|x a IH]; intros [|y b] [|z c];
    cbn [text_leb]; try discriminate; try reflexivity.
  destruct (N.ltb_spec x y) as [Hxy|Hxy];
    destruct (N.ltb_spec y z) as [Hyz|Hyz];
    destruct (N.eqb_spec x y) as [Exy|Exy];
    destruct (N.eqb_spec y z) as [Eyz|Eyz];
    destruct (N.ltb_spec x z) as [Hxz|Hxz];
    destruct (N.eqb_spec x z) as [Exz|Exz];
    try discriminate; try reflexivity; try lia.
  apply IH.
Qed.

Lemma insert_sorted_perm (x : text) (l : list text) :
  Permutation (insert_sorted x l) (x :: l).
Proof.
  induction l as [|y l IH]; cbn [insert_sorted]; [reflexivity|].
  destruct (text_leb x y); [reflexivity|].
  rewrite IH. apply perm_swap.
Qed.

Lemma sorted_perm (l : list text) : Permutation (sorted l) l.
Proof.
  unfold sorted. induction l as [|x l IH]; cbn [fold_right]; [reflexivity|].
  rewrite insert_sorted_perm. now constructor.
Qed.

Lemma insert_sorted_HdRel (a x : text) (l : list text) :
  HdRel lex_le a l -> lex_le a x -> HdRel lex_le a (insert_sorted x l).
Proof.
  intros Hl Hx. destruct l as [|y l]; cbn [insert_sorted].
  - now constructor.
  - destruct (text_leb x y); constructor; [exact Hx|].
    now inversion Hl.
Qed.

Lemma insert_sorted_Sorted (x : text) (l : list text) :
  Sorted lex_le l -> Sorted lex_le (insert_sorted x l).
Proof.
  induction 1 as [|y l Hs IH Hh]; cbn [insert_sorted].
  - repeat constructor.
  - destruct (text_leb x y) eqn:E.
    + repeat constructor; auto.
    + constructor; [exact IH|].
      apply insert_sorted_HdRel; [exact Hh|].
      now apply text_leb_total.
Qed.

Lemma sorted_Sorted (l : list text) : Sorted lex_le (sorted l).
Proof.
  unfold sorted. induction l as [|x l IH]; cbn [fold_right].
  - constructor.
  - now apply insert_sorted_Sorted.
Qed.

Lemma listed_already (s : text) (l : list text) :
  existsb (text_eqb s) l = true <-> In s l.
Proof.
  rewrite existsb_exists. split.
  - intros (x & Hx & E). apply text_eqb_eq in E. now subst.
  - intros H. exists s. split; [exact H | apply text_eqb_refl].
Qed.

Lemma collect_ids_In (data : list (dict value)) (acc : list text)
  (id : text) :
  In id (collect_ids data acc) <->
  In id acc
  \/ exists r, In r data /\ truthy (invoice_id_field r) = true
               /\ str (invoice_id_field r) = id.
Proof.
  revert acc. induction data as [|record data IH]; intros acc;
    cbn [collect_ids].
  - split; [now left | intros [H | (r & [] & _)]; exact H].
  - destruct (truthy (invoice_id_field record)) eqn:Et; cbn [andb].
    + destruct (existsb (text_eqb (str (invoice_id_field record))) acc)
        eqn:Ex; cbn [negb]; rewrite IH.
      * apply listed_already in Ex. split.
        -- intros [H | (r & Hr & H)]; [now left|].
           right. exists r. split; [now right | exact H].
        -- intros [H | (r & [<- | Hr] & Ht & Hs)]; [now left | |].
           ++ left. now rewrite <- Hs.
           ++ right. exists r. auto.
      * rewrite in_app_iff. cbn [In]. split.
        -- intros [[H | [H | []]] | (r & Hr & H)].
           ++ now left.
           ++ right. exists record. split; [now left | auto].
           ++ right. exists r. split; [now right | exact H].
        -- intros [H | (r & [<- | Hr] & Ht & Hs)].
           ++ left. now left.
           ++ left. right. now left.
           ++ right. exists r. auto.
    + rewrite IH. split.
      * intros [H | (r & Hr & H)]; [now left|].
        right. exists r. split; [now right | exact H].
      * intros [H | (r & [<- | Hr] & Ht & Hs)]; [now left | |].
        -- congruence.
        -- right. exists r. auto.
Qed.

Lemma collect_ids_NoDup (data : list (dict value)) (acc : list text) :
  NoDup acc -> NoDup (collect_ids data acc).
Proof.
  revert acc. induction data as [|record data IH]; intros acc Hacc;
    cbn [collect_ids]; [exact Hacc|].
  destruct (truthy (invoice_id_field record)); cbn [andb]; [|now apply IH].
  destruct (existsb (text_eqb (str (invoice_id_field record))) acc) eqn:Ex;
    cbn [negb]; [now apply IH|].
  apply IH.
  apply (Permutation_NoDup
           (Permutation_cons_append acc (str (invoice_id_field record)))).
  constructor; [|exact Hacc].
  intros Hin. apply listed_already in Hin. congruence.
Qed.

(** X3: the list of identifiers comes out in ascending order of the
    code points, character by character (every entry is at most every
    later one), and holds no identifier twice. *)
Theorem invoice_ids_sorted_without_duplicates (data : list (dict value)) :
  StronglySorted lex_le (get_invoice_ids data)
  /\ NoDup (get_invoice_ids data).
Proof.
  unfold get_invoice_ids. split.
  - apply Sorted_StronglySorted; [|apply sorted_Sorted].
    intros a b c. apply text_leb_trans.
  - apply (Permutation_NoDup (Permutation_sym (sorted_perm _))).
    apply collect_ids_NoDup. constructor.
Qed.

(** X4: an identifier is listed exactly when it is the [str] of the
    chain value of some record whose chain value is true. A record
    whose five fields are all absent or false contributes nothing. *)
Theorem invoice_ids_membership (data : list (dict value)) (id : text) :
  In id (get_invoice_ids data) <->
  exists r, In r data /\ truthy (invoice_id_field r) = true
            /\ str (invoice_id_field r) = id.
Proof.
  unfold get_invoice_ids. split.
  - intros H. apply (Permutation_in _ (sorted_perm _)) in H.
    apply collect_ids_In in H. destruct H as [[] | H]. exact H.
  - intros H. apply (Permutation_in _ (Permutation_sym (sorted_perm _))).
    apply collect_ids_In. now right.
Qed.

(** X5: every identifier that [get_invoice_ids] lists is found by
    [find_record_by_invoice_id], which returns a record of the data
    whose chain value has that [str]. *)
Theorem listed_invoice_id_is_found (data : list (dict value)) (id : text) :
  In id (get_invoice_ids data) ->
  exists record,
    find_record_by_invoice_id data id = Some record
    /\ In record data
    /\ str (invoice_id_field record) = id.
Proof.
  intros H. unfold get_invoice_ids in H.
  apply (Permutation_in _ (sorted_perm _)) in H.
  apply collect_ids_In in H. destruct H as [[] | (r & Hr & _ & Hs)].
  destruct (find_record_by_invoice_id data id) as [record|] eqn:E.
  - exists record. split; [reflexivity|].
    destruct (find_record_first _ _ E) as (before & after & -> & Hm & _).
    split; [|exact Hm]. apply in_or_app. right. now left.
  - exfalso. apply (proj1 (find_record_none data id) E r Hr Hs).
Qed.

Lemma listed_invoice_id_is_found_witness :
  exists record,
    find_record_by_invoice_id
      [[(lit "id", VStr (lit "2"))]; [(lit "ID", VInt 10)]] (lit "10") =
      Some record
    /\ In record [[(lit "id", VStr (lit "2"))]; [(lit "ID", VInt 10)]]
    /\ str (invoice_id_field record) = lit "10".
Proof.
  apply (@listed_invoice_id_is_found
           [[(lit "id", VStr (lit "2"))]; [(lit "ID", VInt 10)]] (lit "10")).
  left. reflexivity.
Defined.

End SelectorMore.

(* ================================================================== *)
(** ** Data loader: the keys of a normalized record *)
(* ================================================================== *)

Section LoaderMore.

Variable V : Type.

Lemma lstrip_head (s : text) : starts_with_space (lstrip s) = false.
Proof.
  induction s as [|c s IH]; cbn [lstrip]; [reflexivity|].
  destruct (is_space c) eqn:E; [exact IH | exact E].
Qed.

Lemma lstrip_id (s : text) : starts_with_space s = false -> lstrip s = s.
Proof.
  destruct s as [|c s]; cbn [starts_with_space lstrip]; [reflexivity|].
  now intros ->.
Qed.

Lemma lstrip_app (l m : text) :
  lstrip (l ++ m) = if forallb is_space l then lstrip m else lstrip l ++ m.
Proof.
  induction l as [|c l IH]; cbn [app lstrip forallb]; [reflexivity|].
  destruct (is_space c); [exact IH | reflexivity].
Qed.

Lemma rstrip_head (x : text) :
  starts_with_space x = false ->
  starts_with_space (rev (lstrip (rev x))) = false.
Proof.
  destruct x as [|c x]; [reflexivity|].
  cbn [starts_with_space rev]. intros Hc.
  rewrite lstrip_app. destruct (forallb is_space (rev x)).
  - cbn [lstrip]. now rewrite Hc.
  - rewrite rev_app_distr. exact Hc.
Qed.

Lemma strip_trimmed (s : text) : trimmed (strip s) = true.
Proof.
  unfold trimmed, strip.
  rewrite rstrip_head by apply lstrip_head.
  rewrite rev_involutive, lstrip_head. reflexivity.
Qed.

Lemma strip_of_trimmed (s : text) : trimmed s = true -> strip s = s.
Proof.
  unfold trimmed, strip.
  rewrite andb_true_iff, !negb_true_iff. intros [H1 H2].
  rewrite (lstrip_id _ H1), (lstrip_id _ H2). apply rev_involutive.
Qed.

Lemma unique_keys_set (k : text) (v : V) (d : dict V) :
  unique_keys d = true -> unique_keys (set k v d) = true.
Proof.
  induction d as [|[k0 v0] d IH]; cbn [set unique_keys]; [reflexivity|].
  rewrite andb_true_iff. intros [Hk Hd].
  destruct (text_eqb k0 k) eqn:E; cbn [unique_keys].
  - now rewrite Hk, Hd.
  - apply text_eqb_false in E. unfold mem in *.
    rewrite lookup_set_ne by congruence.
    now rewrite Hk, IH.
Qed.

Lemma normalize_loop_keys (record acc : dict V) (k : text) :
  In k (keys (fold_left
                (fun normalized kv =>
                   set (strip (fst kv)) (snd kv) normalized)
                record acc)) <->
  In k (keys acc) \/ exists k0, In k0 (keys record) /\ k = strip k0.
Proof.
  revert acc. induction record as [|[k1 v1] record IH]; intros acc;
    cbn [fold_left fst snd].
  - split; [now left | intros [H | (k0 & [] & _)]; exact H].
  - rewrite IH, keys_set.
    change (keys ((k1, v1) :: record)) with (k1 :: keys record).
    cbn [In]. split.
    + intros [[-> | H] | (k0 & Hk0 & ->)].
      * right. exists k1. auto.
      * now left.
      * right. exists k0. auto.
    + intros [H | (k0 & [<- | Hk0] & ->)].
      * left. now right.
      * left. now left.
      * right. exists k0. auto.
Qed.

Lemma normalize_loop_unique (record acc : dict V) :
  unique_keys acc = true ->
  unique_keys (fold_left
                 (fun normalized kv =>
                    set (strip (fst kv)) (snd kv) normalized)
                 record acc) = true.
Proof.
  revert acc. induction record as [|[k1 v1] record IH]; intros acc Hacc;
    cbn [fold_left]; [exact Hacc|].
  apply IH. now apply unique_keys_set.
Qed.

(** X6: after the loop of [load_csv_data] the keys of a record are the
    stripped keys of the parsed row and nothing else; none of them has
    white space at either end, and no key occurs twice. *)
Theorem normalized_keys_are_stripped (record : dict V) :
  (forall k, In k (keys (normalize_record record)) <->
             exists k0, In k0 (keys record) /\ k = strip k0)
  /\ (forall k, In k (keys (normalize_record record)) -> trimmed k = true)
  /\ unique_keys (normalize_record record) = true.
Proof.
  assert (Hkeys : forall k, In k (keys (normalize_record record)) <->
                            exists k0, In k0 (keys record) /\ k = strip k0).
  { intros k. unfold normalize_record. rewrite normalize_loop_keys.
    cbn [keys map In]. tauto. }
  split; [exact Hkeys | split].
  - intros k Hk. apply Hkeys in Hk. destruct Hk as (k0 & _ & ->).
    apply strip_trimmed.
  - unfold normalize_record. now apply normalize_loop_unique.
Qed.

Lemma set_fresh (k : text) (v : V) (d : dict V) :
  mem k d = false -> set k v d = d ++ [(k, v)].
Proof.
  unfold mem. induction d as [|[k0 v0] d IH]; cbn [set lookup app];
    [reflexivity|].
  destruct (text_eqb k0 k); [discriminate|].
  intros H. now rewrite IH.
Qed.

Lemma unique_keys_fresh (a b : dict V) (k : text) (v : V) :
  unique_keys (a ++ (k, v) :: b) = true -> mem k a = false.
Proof.
  unfold mem. induction a as [|[k0 v0] a IH]; cbn [app unique_keys lookup];
    [reflexivity|].
  rewrite andb_true_iff, negb_true_iff. intros [Hk Ha].
  unfold mem in Hk. rewrite lookup_app in Hk. cbn [lookup] in Hk.
  destruct (text_eqb k0 k) eqn:E.
  - apply text_eqb_eq in E. subst k0. rewrite text_eqb_refl in Hk.
    now destruct (lookup k a).
  - now apply IH.
Qed.

Lemma normalize_loop_clean (record acc : dict V) :
  (forall k, In k (keys record) -> trimmed k = true) ->
  unique_keys (acc ++ record) = true ->
  fold_left
    (fun normalized kv => set (strip (fst kv)) (snd kv) normalized)
    record acc = acc ++ record.
Proof.
  revert acc. induction record as [|[k1 v1] record IH]; intros acc Ht Hu;
    cbn [fold_left fst snd].
  - now rewrite app_nil_r.
  - rewrite strip_of_trimmed by (apply Ht; now left).
    rewrite set_fresh by (now apply unique_keys_fresh in Hu).
    rewrite IH.
    + now rewrite <- app_assoc.
    + intros k Hk. apply Ht. now right.
    + now rewrite <- app_assoc.
Qed.

(** X7: a row whose keys have no white space at either end and are all
    different goes through the loop unchanged, in the same order. *)
Theorem normalize_keeps_clean_record (record : dict V) :
  forallb trimmed (keys record) = true ->
  unique_keys record = true ->
  normalize_record record = record.
Proof.
  intros Ht Hu. unfold normalize_record.
  apply (normalize_loop_clean record []); [|exact Hu].
  now apply forallb_forall.
Qed.

Lemma normalize_loop_lookup (k : text) (record acc : dict V) :
  lookup k
    (fold_left
       (fun normalized kv => set (strip (fst kv)) (snd kv) normalized)
       record acc) =
  match lookup k (rev (map (fun kv => (strip (fst kv), snd kv)) record)) with
  | Some v => Some v
  | None => lookup k acc
  end.
Proof.
  revert acc. induction record as [|[k1 v1] record IH]; intros acc;
    cbn [fold_left map rev fst snd]; [reflexivity|].
  rewrite IH, lookup_app.
  destruct (lookup k (rev (map _ record))); [reflexivity|].
  cbn [lookup]. destruct (text_eqb (strip k1) k) eqn:E.
  - apply text_eqb_eq in E. subst k. apply lookup_set_eq.
  - apply text_eqb_false in E. now apply lookup_set_ne.
Qed.

(** X8: when several keys of a row become the same key once stripped,
    the normalized record holds for it the value of the last of them:
    a field is looked up as in the row read backwards with its keys
    stripped. *)
Theorem normalize_last_value_wins (record : dict V) (k : text) :
  lookup k (normalize_record record) =
  lookup k (rev (map (fun kv => (strip (fst kv), snd kv)) record)).
Proof.
  unfold normalize_record. rewrite normalize_loop_lookup.
  now destruct (lookup k (rev (map _ record))).
Qed.

End LoaderMore.

Lemma normalize_keeps_clean_record_witness :
  normalize_record [(lit "id", 1%Z); (lit "net amount", 2%Z)] =
  [(lit "id", 1%Z); (lit "net amount", 2%Z)].
Proof.
  apply (@normalize_keeps_clean_record Z
           [(lit "id", 1%Z); (lit "net amount", 2%Z)]);
    reflexivity.
Defined.

(** Two header cells that differ in outer white space only. *)
Example normalize_merges_padded_keys :
  normalize_record [(lit " id", 1%Z); (lit "total", 2%Z); (lit "id ", 3%Z)] =
  [(lit "id", 3%Z); (lit "total", 2%Z)].
Proof. reflexivity. Qed.

(* ================================================================== *)
(** ** Template renderer: the merged mapping and single placeholders *)
(* ================================================================== *)

Section RendererMore.

Lemma copy_loop_keys (data : dict value) (acc : dict text) (k : text) :
  In k (keys (fold_left
                (fun td kv => set (fst kv) (display (snd kv)) td)
                data acc)) <->
  In k (keys acc) \/ In k (keys data).
Proof.
  revert acc. induction data as [|[k1 v1] data IH]; intros acc;
    cbn [fold_left fst snd].
  - cbn [keys map In]. tauto.
  - rewrite IH, keys_set.
    change (keys ((k1, v1) :: data)) with (k1 :: keys data).
    cbn [In]. intuition congruence.
Qed.

Lemma copy_loop_unique (data : dict value) (acc : dict text) :
  unique_keys acc = true ->
  unique_keys (fold_left
                 (fun td kv => set (fst kv) (display (snd kv)) td)
                 data acc) = true.
Proof.
  revert acc. induction data as [|[k1 v1] data IH]; intros acc Hacc;
    cbn [fold_left]; [exact Hacc|].
  apply IH. now apply unique_keys_set.
Qed.

(** X9: the merged mapping binds exactly the keys of the record and the
    two derived keys [tax_row] and [total_row], each of them once. *)
Theorem merged_mapping_keys (data : dict value) :
  (forall k, In k (keys (template_data data)) <->
             In k (keys data) \/ k = lit "tax_row" \/ k = lit "total_row")
  /\ unique_keys (template_data data) = true.
Proof.
  unfold template_data, copy_fields. split.
  - intros k. rewrite !keys_set, copy_loop_keys.
    cbn [keys map In]. tauto.
  - do 2 apply unique_keys_set. now apply copy_loop_unique.
Qed.

Lemma plain_app (a b : text) : plain (a ++ b) = plain a && plain b.
Proof.
  unfold plain. rewrite !occurs_app.
  destruct (occurs lbrace a), (occurs rbrace a), (occurs NUL a),
    (occurs lbrace b), (occurs rbrace b), (occurs NUL b); reflexivity.
Qed.

Lemma plain_cons (c : N) (a : text) :
  plain (c :: a) = plain [c] && plain a.
Proof. apply (plain_app [c] a). Qed.

(** A scan writes no character that is neither in the text nor in the
    replacement. *)
Lemma sub_from_no_new_char (m : matcher) (repl : text) (c : N) (k : nat)
  (s : text) :
  occurs c s = false -> occurs c repl = false ->
  occurs c (sub_from m repl k s) = false.
Proof.
  intros Hs Hr. revert k.
  induction s as [|d s IH]; intros k; cbn [sub_from]; [reflexivity|].
  rewrite occurs_cons in Hs. apply orb_false_iff in Hs.
  destruct Hs as [Hd Hs]. destruct k as [|k]; [|now apply IH].
  destruct (m (d :: s)).
  - rewrite occurs_app, Hr. now apply IH.
  - rewrite occurs_cons, Hd. now apply IH.
Qed.

Lemma protect_plain (t : text) :
  occurs lbrace t = false -> occurs rbrace t = false -> protect t = t.
Proof.
  intros Hl Hr. unfold protect, replace.
  rewrite (@re_sub_keeps_all (literal (lit "{{")) OPEN_MARK lbrace t
             (@literal_fires lbrace [lbrace]) Hl).
  apply (@re_sub_keeps_all (literal (lit "}}")) CLOSE_MARK rbrace t
           (@literal_fires rbrace [rbrace]) Hr).
Qed.

Lemma restore_plain (t : text) : occurs NUL t = false -> restore t = t.
Proof.
  intros H. unfold restore, replace.
  rewrite (@re_sub_keeps_all (literal OPEN_MARK) (lit "{{") NUL t
             (@literal_fires NUL (lit "OPEN" ++ [NUL])) H).
  apply (@re_sub_keeps_all (literal CLOSE_MARK) (lit "}}") NUL t
           (@literal_fires NUL (lit "CLOSE" ++ [NUL])) H).
Qed.

Lemma substitute_plain (td : dict text) (t : text) :
  occurs lbrace t = false -> substitute td t = t.
Proof.
  intros H. rewrite <- (app_nil_r t) at 1.
  rewrite substitute_keeps_prefix by exact H.
  assert (E : substitute td [] = []).
  { unfold substitute. induction td as [|[k v] td IH]; [reflexivity|].
    exact IH. }
  rewrite E. apply app_nil_r.
Qed.

Lemma no_leftover_without_brace (td : dict text) (t : text) :
  occurs lbrace t = false -> remaining_placeholders td t = [].
Proof.
  intros H. unfold remaining_placeholders, non_style_content.
  assert (E : findall braced_ident (re_sub style_block [] t) = []).
  { rewrite <- (app_nil_r (re_sub style_block [] t)).
    rewrite findall_keeps_going; [reflexivity|].
    unfold re_sub. now apply sub_from_no_new_char. }
  now rewrite E.
Qed.

(** X10: a template without braces and without NUL characters is
    returned as it is, whatever the record holds, and nothing is
    reported. *)
Theorem plain_template_is_returned_unchanged (w : world)
  (template_path : path) (data : dict value) (template : text) :
  read_text w template_path = Returned template ->
  plain template = true ->
  render_template w template_path data = (Returned template, []).
Proof.
  intros Hread Hp. destruct (plain_parts _ Hp) as (Hl & Hr & H0).
  unfold render_template. rewrite Hread. unfold render_text.
  rewrite protect_plain, substitute_plain, restore_plain by assumption.
  unfold leftover_report.
  now rewrite no_leftover_without_brace.
Qed.

Lemma plain_template_is_returned_unchanged_witness :
  render_template
    {| files := fun _ => Some (lit "<p>No fields here</p>");
       read_error := fun _ => None;
       unlink_error := fun _ => None;
       write_error := fun _ => None |}
    (lit "t.html") [(lit "p", VStr (lit "x"))] =
  (Returned (lit "<p>No fields here</p>"), []).
Proof.
  apply (@plain_template_is_returned_unchanged
           {| files := fun _ => Some (lit "<p>No fields here</p>");
              read_error := fun _ => None;
              unlink_error := fun _ => None;
              write_error := fun _ => None |}
           (lit "t.html") [(lit "p", VStr (lit "x"))]
           (lit "<p>No fields here</p>"));
    reflexivity.
Defined.

(** The protecting passes leave a single placeholder between plain
    texts alone. *)
Lemma protect_single_placeholder (pre k post : text) :
  plain pre = true -> clean_key k = true -> plain post = true ->
  protect (pre ++ lbrace :: k ++ rbrace :: post) =
  pre ++ lbrace :: k ++ rbrace :: post.
Proof.
  intros Hpre Hk Hpost.
  destruct (plain_parts _ Hpre) as (Hpl & Hpr & _).
  destruct (plain_parts _ Hpost) as (Hql & Hqr & _).
  unfold clean_key in Hk. rewrite !andb_true_iff, !negb_true_iff in Hk.
  destruct Hk as [[Hkl Hkr] _].
  unfold protect, replace.
  change (lit "{{") with (lbrace :: [lbrace]).
  change (lit "}}") with (rbrace :: [rbrace]).
  assert (E1 : re_sub (literal [lbrace; lbrace]) OPEN_MARK
                 (pre ++ lbrace :: k ++ rbrace :: post) =
               pre ++ lbrace :: k ++ rbrace :: post).
  { rewrite (@re_sub_keeps_prefix _ OPEN_MARK lbrace pre _
               (@literal_fires lbrace [lbrace]) Hpl).
    f_equal. rewrite re_sub_miss.
    - f_equal.
      apply (@re_sub_keeps_all _ OPEN_MARK lbrace _
               (@literal_fires lbrace [lbrace])).
      rewrite occurs_app, occurs_cons, Hkl, Hql. reflexivity.
    - unfold literal. rewrite starts_with_cons, N.eqb_refl.
      destruct k as [|c k]; cbn [app andb].
      + now rewrite starts_with_head by discriminate.
      + rewrite occurs_cons in Hkl. apply orb_false_iff in Hkl.
        destruct Hkl as [Hc _]. apply N.eqb_neq in Hc.
        now rewrite starts_with_head by congruence. }
  rewrite E1.
  rewrite (@re_sub_keeps_prefix _ CLOSE_MARK rbrace pre _
             (@literal_fires rbrace [rbrace]) Hpr).
  f_equal.
  change (lbrace :: k ++ rbrace :: post)
    with ((lbrace :: k) ++ rbrace :: post).
  rewrite (@re_sub_keeps_prefix _ CLOSE_MARK rbrace (lbrace :: k) _
             (@literal_fires rbrace [rbrace])).
  - f_equal. rewrite re_sub_miss.
    + f_equal.
      apply (@re_sub_keeps_all _ CLOSE_MARK rbrace _
               (@literal_fires rbrace [rbrace]) Hqr).
    + unfold literal. rewrite starts_with_cons, N.eqb_refl.
      destruct post as [|c post]; [reflexivity|].
      rewrite occurs_cons in Hqr. apply orb_false_iff in Hqr.
      destruct Hqr as [Hc _]. apply N.eqb_neq in Hc.
      now rewrite starts_with_head by congruence.
  - rewrite occurs_cons, Hkr. reflexivity.
Qed.

Lemma substitute_key_passes_other_placeholder (k k' v' pre post : text) :
  clean_key k = true -> k' <> k ->
  occurs lbrace pre = false -> plain post = true ->
  substitute_key k' v' (pre ++ lbrace :: k ++ rbrace :: post) =
  pre ++ lbrace :: k ++ rbrace :: post.
Proof.
  intros Hk Hne Hpre Hpost.
  destruct (plain_parts _ Hpost) as (Hql & Hqr & _).
  unfold substitute_key.
  rewrite (@re_sub_keeps_prefix _ v' lbrace pre _
             (placeholder_fires k') Hpre).
  f_equal. rewrite re_sub_miss.
  - f_equal.
    apply (@re_sub_keeps_all _ v' lbrace _ (placeholder_fires k')).
    unfold clean_key in Hk. rewrite !andb_true_iff, !negb_true_iff in Hk.
    destruct Hk as [[Hkl _] _].
    rewrite occurs_app, occurs_cons, Hkl, Hql. reflexivity.
  - assert (E : lbrace :: k ++ rbrace :: post =
                (lbrace :: k ++ [rbrace]) ++ post).
    { cbn [app]. now rewrite <- app_assoc. }
    rewrite E, (@placeholder_blind_to k' post Hqr) by discriminate.
    now apply placeholder_of_other_key.
Qed.

Lemma lookup_split (V : Type) (k : text) (v : V) (d : dict V) :
  lookup k d = Some v ->
  exists before after, d = before ++ (k, v) :: after /\ mem k before = false.
Proof.
  induction d as [|[k0 v0] d IH]; cbn [lookup]; [discriminate|].
  destruct (text_eqb k0 k) eqn:E.
  - intros H. inversion H. subst v0. apply text_eqb_eq in E. subst k0.
    now exists [], d.
  - intros H. destruct (IH H) as (before & after & -> & Hb).
    exists ((k0, v0) :: before), after. split; [reflexivity|].
    unfold mem in *. cbn [lookup]. now rewrite E.
Qed.

(** The passes over a template that is one placeholder of a bound key
    between plain texts. *)
Lemma substitute_single_placeholder (td : dict text) (pre k post v : text) :
  occurs lbrace pre = false -> clean_key k = true -> plain post = true ->
  lookup k td = Some v -> occurs lbrace v = false ->
  substitute td (pre ++ lbrace :: k ++ rbrace :: post) = pre ++ v ++ post.
Proof.
  intros Hpre Hk Hpost Hlook Hv.
  destruct (plain_parts _ Hpost) as (Hql & Hqr & _).
  destruct (lookup_split _ _ Hlook) as (before & after & -> & Hb).
  clear Hlook. unfold substitute.
  induction before as [|[k0 v0] before IH]; cbn [app fold_left fst snd].
  - unfold substitute_key at 2.
    rewrite (@re_sub_keeps_prefix _ v lbrace pre _
               (placeholder_fires k) Hpre).
    fold (substitute_key k v (lbrace :: k ++ rbrace :: post)).
    rewrite substitute_key_bare.
    unfold substitute_key at 2.
    rewrite (@re_sub_keeps_all _ v lbrace post (placeholder_fires k) Hql).
    apply (substitute_plain after).
    now rewrite !occurs_app, Hpre, Hv, Hql.
  - unfold mem in Hb. cbn [lookup] in Hb.
    destruct (text_eqb k0 k) eqn:E; [discriminate|].
    apply text_eqb_false in E.
    rewrite substitute_key_passes_other_placeholder by assumption.
    apply IH. exact Hb.
Qed.

(** X11: a template that is one placeholder [{key}] between two texts
    without braces and NUL characters, for a key (without brace or
    colon) that the merged mapping binds to a text without braces and
    NUL characters, renders as the two texts around that text, and
    nothing is reported. *)
Theorem known_placeholder_is_replaced (w : world) (template_path : path)
  (data : dict value) (pre key post v : text) :
  read_text w template_path =
    Returned (pre ++ lbrace :: key ++ rbrace :: post) ->
  plain pre = true -> clean_key key = true -> plain post = true ->
  lookup key (template_data data) = Some v -> plain v = true ->
  render_template w template_path data = (Returned (pre ++ v ++ post), []).
Proof.
  intros Hread Hpre Hk Hpost Hlook Hv.
  destruct (plain_parts _ Hpre) as (Hpl & Hpr & Hp0).
  destruct (plain_parts _ Hpost) as (Hql & Hqr & Hq0).
  destruct (plain_parts _ Hv) as (Hvl & Hvr & Hv0).
  unfold render_template. rewrite Hread. unfold render_text.
  rewrite protect_single_placeholder by assumption.
  rewrite (substitute_single_placeholder _ _ _ _ Hpl Hk Hpost Hlook Hvl).
  rewrite restore_plain by (now rewrite !occurs_app, Hp0, Hv0, Hq0).
  unfold leftover_report.
  rewrite no_leftover_without_brace
    by (now rewrite !occurs_app, Hpl, Hvl, Hql).
  reflexivity.
Qed.

Lemma known_placeholder_is_replaced_witness :
  render_template
    {| files := fun _ => Some (lit "<p>{id}</p>");
       read_error := fun _ => None;
       unlink_error := fun _ => None;
       write_error := fun _ => None |}
    (lit "t.html") [(lit "id", VStr (lit "A1")); (lit "amount", VInt 50)] =
  (Returned (lit "<p>A1</p>"), []).
Proof.
  apply (@known_placeholder_is_replaced
           {| files := fun _ => Some (lit "<p>{id}</p>");
              read_error := fun _ => None;
              unlink_error := fun _ => None;
              write_error := fun _ => None |}
           (lit "t.html")
           [(lit "id", VStr (lit "A1")); (lit "amount", VInt 50)]
           (lit "<p>") (lit "id") (lit "</p>") (lit "A1"));
    reflexivity.
Defined.

(** X12: the placeholder of a field of the record is replaced by the
    empty string when the field is [None] or NaN, and by [str] of the
    value otherwise (for a record without repeated keys, a key other
    than the two derived ones, and texts without braces and NUL). *)
Theorem field_placeholder_shows_display_text (data : dict value)
  (pre key post : text) (val : value) :
  unique_keys data = true ->
  lookup key data = Some val ->
  text_eqb key (lit "tax_row") = false ->
  text_eqb key (lit "total_row") = false ->
  plain pre = true -> clean_key key = true -> plain post = true ->
  plain (str val) = true ->
  render_text (pre ++ lbrace :: key ++ rbrace :: post) data =
  pre ++ (if is_none val || is_nan val then [] else str val) ++ post.
Proof.
  intros Hu Hlook Ht1 Ht2 Hpre Hk Hpost Hval.
  apply text_eqb_false in Ht1. apply text_eqb_false in Ht2.
  assert (Hd : display val =
               if is_none val || is_nan val then [] else str val).
  { unfold display. now destruct (is_none val), (is_nan val). }
  assert (Hl : lookup key (template_data data) = Some (display val)).
  { rewrite template_data_other by assumption.
    now rewrite (copy_fields_lookup key data Hu), Hlook. }
  assert (Hpv : plain (display val) = true).
  { rewrite Hd. now destruct (is_none val || is_nan val). }
  destruct (plain_parts _ Hpre) as (Hpl & Hpr & Hp0).
  destruct (plain_parts _ Hpost) as (Hql & Hqr & Hq0).
  destruct (plain_parts _ Hpv) as (Hvl & Hvr & Hv0).
  unfold render_text.
  rewrite protect_single_placeholder by assumption.
  rewrite (substitute_single_placeholder _ _ _ _ Hpl Hk Hpost Hl Hvl).
  rewrite restore_plain by (now rewrite !occurs_app, Hp0, Hv0, Hq0).
  now rewrite Hd.
Qed.

Lemma field_placeholder_shows_display_text_witness :
  render_text (lit "<td>{note}</td>")
    [(lit "id", VInt 7); (lit "note", VNaN)] = lit "<td></td>"
  /\ render_text (lit "<td>{id}</td>")
    [(lit "id", VInt 7); (lit "note", VNaN)] = lit "<td>7</td>".
Proof.
  split.
  - apply (@field_placeholder_shows_display_text
             [(lit "id", VInt 7); (lit "note", VNaN)]
             (lit "<td>") (lit "note") (lit "</td>") VNaN);
      reflexivity.
  - apply (@field_placeholder_shows_display_text
             [(lit "id", VInt 7); (lit "note", VNaN)]
             (lit "<td>") (lit "id") (lit "</td>") (VInt 7));
      reflexivity.
Defined.

Lemma tax_fragment_plain (amount : text) :
  plain amount = true -> plain (tax_fragment amount) = true.
Proof.
  intros H. unfold tax_fragment, currency_suffix.
  rewrite !plain_app, H. reflexivity.
Qed.

Lemma total_fragment_plain (amount : text) :
  plain amount = true -> plain (total_fragment amount) = true.
Proof.
  intros H. unfold total_fragment, currency_suffix.
  rewrite !plain_app, H. reflexivity.
Qed.

(** X13: between texts without braces and NUL, [{tax_row}] renders as
    nothing for a record without a [tax] field or with [tax] at
    [None], and otherwise as the row built around [str] of the tax
    value (a text without braces and NUL); [{total_row}] does the same
    from [total]. *)
Theorem derived_row_placeholder (data : dict value) (pre post : text) :
  plain pre = true -> plain post = true ->
  plain (str (get (lit "tax") data)) = true ->
  plain (str (get (lit "total") data)) = true ->
  render_text (pre ++ lit "{tax_row}" ++ post) data =
    pre ++ (if has_non_null (lit "tax") data
            then tax_fragment (str (get (lit "tax") data))
            else []) ++ post
  /\ render_text (pre ++ lit "{total_row}" ++ post) data =
    pre ++ (if has_non_null (lit "total") data
            then total_fragment (str (get (lit "total") data))
            else []) ++ post.
Proof.
  intros Hpre Hpost Htax Htotal.
  destruct (plain_parts _ Hpre) as (Hpl & Hpr & Hp0).
  destruct (plain_parts _ Hpost) as (Hql & Hqr & Hq0).
  assert (H1 : plain (tax_row data) = true).
  { unfold tax_row. destruct (has_non_null (lit "tax") data);
      [now apply tax_fragment_plain | reflexivity]. }
  assert (H2 : plain (total_row data) = true).
  { unfold total_row. destruct (has_non_null (lit "total") data);
      [now apply total_fragment_plain | reflexivity]. }
  destruct (plain_parts _ H1) as (H1l & H1r & H10).
  destruct (plain_parts _ H2) as (H2l & H2r & H20).
  split; unfold render_text.
  - change (lit "{tax_row}" ++ post)
      with (lbrace :: lit "tax_row" ++ rbrace :: post).
    rewrite protect_single_placeholder by (assumption || reflexivity).
    rewrite (@substitute_single_placeholder _ pre (lit "tax_row") post
               (tax_row data) Hpl eq_refl Hpost
               (template_data_tax_row data) H1l).
    now rewrite restore_plain by (now rewrite !occurs_app, Hp0, H10, Hq0).
  - change (lit "{total_row}" ++ post)
      with (lbrace :: lit "total_row" ++ rbrace :: post).
    rewrite protect_single_placeholder by (assumption || reflexivity).
    rewrite (@substitute_single_placeholder _ pre (lit "total_row") post
               (total_row data) Hpl eq_refl Hpost
               (template_data_total_row data) H2l).
    now rewrite restore_plain by (now rewrite !occurs_app, Hp0, H20, Hq0).
Qed.

Lemma derived_row_placeholder_witness :
  render_text (lit "<div>{tax_row}</div>") [(lit "id", VInt 1)] =
    lit "<div></div>"
  /\ render_text (lit "<div>{total_row}</div>")
       [(lit "id", VInt 1); (lit "total", VStr (lit "100"))] =
     lit "<div>" ++ total_fragment (lit "100") ++ lit "</div>".
Proof.
  split.
  - apply (proj1 (@derived_row_placeholder [(lit "id", VInt 1)]
                    (lit "<div>") (lit "</div>")
                    eq_refl eq_refl eq_refl eq_refl)).
  - apply (proj2 (@derived_row_placeholder
                    [(lit "id", VInt 1); (lit "total", VStr (lit "100"))]
                    (lit "<div>") (lit "</div>")
                    eq_refl eq_refl eq_refl eq_refl)).
Defined.

End RendererMore.

(* ================================================================== *)
(** ** Template renderer: what the leftover scan reports *)
(* ================================================================== *)

Section LeftoverMore.

Lemma substitute_passes_unbound_placeholder (td : dict text)
  (pre name post : text) :
  clean_key name = true -> mem name td = false ->
  occurs lbrace pre = false -> plain post = true ->
  substitute td (pre ++ lbrace :: name ++ rbrace :: post) =
  pre ++ lbrace :: name ++ rbrace :: post.
Proof.
  intros Hn Hm Hpre Hpost. unfold substitute.
  induction td as [|[k0 v0] td IH]; cbn [fold_left fst snd]; [reflexivity|].
  unfold mem in Hm. cbn [lookup] in Hm.
  destruct (text_eqb k0 name) eqn:E; [discriminate|].
  apply text_eqb_false in E.
  rewrite substitute_key_passes_other_placeholder by assumption.
  apply IH. exact Hm.
Qed.

Lemma identifier_is_clean_key (name : text) :
  is_identifier name = true -> clean_key name = true.
Proof.
  intros Hn. unfold clean_key.
  assert (H1 : occurs lbrace name = false)
    by (apply identifier_free_of; [|exact Hn];
        intros d Hd; apply ident_char_is_plain in Hd; tauto).
  assert (H2 : occurs rbrace name = false)
    by (apply identifier_free_of; [|exact Hn];
        intros d Hd; apply ident_char_is_plain in Hd; tauto).
  assert (H3 : occurs colon name = false).
  { apply identifier_free_of; [|exact Hn].
    intros d Hd. unfold is_ident_char, is_ident_start, colon in *.
    rewrite !orb_true_iff, !andb_true_iff, !N.leb_le, N.eqb_eq in Hd.
    lia. }
  now rewrite H1, H2, H3.
Qed.

Lemma non_style_content_single_placeholder (pre name post : text) :
  opens_style pre = false -> is_identifier name = true ->
  non_style_content (pre ++ lbrace :: name ++ rbrace :: post) =
  pre ++ lbrace :: name ++ rbrace :: non_style_content post.
Proof.
  intros Hpre Hn.
  rewrite style_scan_stops_at_brace by exact Hpre.
  f_equal. unfold non_style_content.
  rewrite re_sub_miss by (apply style_block_fires; discriminate).
  f_equal.
  rewrite (@re_sub_keeps_prefix style_block [] lt name (rbrace :: post)
             style_block_fires).
  - reflexivity.
  - apply identifier_free_of; [|exact Hn].
    intros d Hd. apply ident_char_is_plain in Hd. tauto.
Qed.

(** X14: a template that is one placeholder [{name}] between two texts
    without braces and NUL characters, the first of them without a
    style tag, for an identifier the merged mapping does not bind, is
    returned as it is, and the run reports that identifier and no
    other. *)
Theorem unknown_placeholder_is_kept_and_reported (w : world)
  (template_path : path) (data : dict value) (pre name post : text) :
  read_text w template_path =
    Returned (pre ++ lbrace :: name ++ rbrace :: post) ->
  plain pre = true -> opens_style pre = false ->
  is_identifier name = true ->
  mem name (template_data data) = false ->
  plain post = true ->
  render_template w template_path data =
    (Returned (pre ++ lbrace :: name ++ rbrace :: post),
     [PrintUnresolved [name];
      PrintAvailableKeys (keys (template_data data))]).
Proof.
  intros Hread Hpre Hstyle Hn Hmem Hpost.
  pose proof (identifier_is_clean_key _ Hn) as Hk.
  pose proof (identifier_is_plain _ Hn) as Hnp.
  destruct (plain_parts _ Hpre) as (Hpl & Hpr & Hp0).
  destruct (plain_parts _ Hpost) as (Hql & Hqr & Hq0).
  destruct (plain_parts _ Hnp) as (Hnl & Hnr & Hn0).
  unfold render_template. rewrite Hread. unfold render_text.
  rewrite protect_single_placeholder by assumption.
  rewrite substitute_passes_unbound_placeholder by assumption.
  rewrite restore_plain
    by (rewrite occurs_app, occurs_cons, occurs_app, occurs_cons;
        now rewrite Hp0, Hn0, Hq0).
  assert (E : remaining_placeholders (template_data data)
                (pre ++ lbrace :: name ++ rbrace :: post) = [name]).
  { unfold remaining_placeholders.
    rewrite non_style_content_single_placeholder by assumption.
    rewrite findall_keeps_going by exact Hpl.
    rewrite (findall_hit braced_ident lbrace
               (name ++ rbrace :: non_style_content post)
               (braced_ident_of_identifier name (non_style_content post) Hn)).
    change (Nat.pred (2 + length name)) with (S (length name)).
    rewrite skipn_past.
    assert (F : findall braced_ident (non_style_content post) = []).
    { rewrite <- (app_nil_r (non_style_content post)).
      rewrite findall_keeps_going; [reflexivity|].
      unfold non_style_content, re_sub.
      now apply sub_from_no_new_char. }
    rewrite F. cbn. now rewrite Hmem. }
  unfold leftover_report. now rewrite E.
Qed.

Lemma unknown_placeholder_is_kept_and_reported_witness :
  render_template
    {| files := fun _ => Some (lit "<p>{customer}</p>");
       read_error := fun _ => None;
       unlink_error := fun _ => None;
       write_error := fun _ => None |}
    (lit "t.html") [(lit "id", VInt 7)] =
  (Returned (lit "<p>{customer}</p>"),
   [PrintUnresolved [lit "customer"];
    PrintAvailableKeys [lit "id"; lit "tax_row"; lit "total_row"]]).
Proof.
  apply (@unknown_placeholder_is_kept_and_reported
           {| files := fun _ => Some (lit "<p>{customer}</p>");
              read_error := fun _ => None;
              unlink_error := fun _ => None;
              write_error := fun _ => None |}
           (lit "t.html") [(lit "id", VInt 7)]
           (lit "<p>") (lit "customer") (lit "</p>"));
    reflexivity.
Defined.

(** What a match of the leftover pattern looks like. *)
Lemma braced_ident_sound (s : text) (n : nat) (g : text) :
  braced_ident s = Some (n, g) ->
  is_identifier g = true /\ starts_with (lbrace :: g ++ [rbrace]) s = true.
Proof.
  unfold braced_ident. destruct s as [|c [|d s2]]; try discriminate.
  destruct (N.eqb_spec c lbrace) as [->|]; [|discriminate].
  cbn [andb]. destruct (is_ident_start d) eqn:Ed; [|discriminate].
  destruct (span is_ident_char s2) as [run rest] eqn:Es.
  destruct (span_spec _ _ Es) as [-> Hrun].
  destruct rest as [|e rest]; [discriminate|].
  destruct (N.eqb_spec e rbrace) as [->|]; [|discriminate].
  intros H. inversion H. subst. split.
  - cbn [is_identifier]. now rewrite Ed, Hrun.
  - assert (E : lbrace :: d :: run ++ rbrace :: rest =
                (lbrace :: (d :: run) ++ [rbrace]) ++ rest).
    { cbn [app]. now rewrite <- app_assoc. }
    rewrite E. apply starts_with_app.
Qed.

Lemma findall_from_sound (m : text -> option (nat * text)) (k : nat)
  (s g : text) :
  In g (findall_from m k s) ->
  exists n x y, s = y ++ x /\ m x = Some (n, g).
Proof.
  revert k. induction s as [|c s IH]; intros k; cbn [findall_from];
    [intros []|].
  assert (Hrec : forall k', In g (findall_from m k' s) ->
                   exists n x y, c :: s = y ++ x /\ m x = Some (n, g)).
  { intros k' H. destruct (IH k' H) as (n & x & y & -> & Hm).
    now exists n, x, (c :: y). }
  destruct k as [|k]; [|apply Hrec].
  destruct (m (c :: s)) as [[n g']|] eqn:E; [|apply Hrec].
  intros [<- | H]; [|now apply (Hrec (pred n))].
  now exists n, (c :: s), [].
Qed.

Lemma contains_of_starts_with (p x y : text) :
  starts_with p x = true -> contains p (y ++ x) = true.
Proof.
  intros H. apply contains_skip. rewrite contains_unfold, H. reflexivity.
Qed.

(** X15: the names a run reports are all different; each of them is an
    identifier that the merged mapping does not bind, and stands in
    single braces in the rendered text once the style blocks are taken
    out of it. *)
Theorem reported_names_are_unbound_identifiers (td : dict text)
  (rendered : text) :
  NoDup (remaining_placeholders td rendered)
  /\ forall name, In name (remaining_placeholders td rendered) ->
       is_identifier name = true
       /\ mem name td = false
       /\ contains (lbrace :: name ++ [rbrace])
            (non_style_content rendered) = true.
Proof.
  split.
  - unfold remaining_placeholders. apply NoDup_filter, NoDup_nodup.
  - intros name H. apply remaining_placeholders_spec in H.
    destruct H as [Hin Hmem].
    destruct (findall_from_sound _ _ _ _ Hin) as (n & x & y & E & Hm).
    apply braced_ident_sound in Hm. destruct Hm as [Hid Hs].
    repeat split; [exact Hid | exact Hmem|].
    rewrite E. now apply contains_of_starts_with.
Qed.

(** A style block between the two halves of a placeholder goes away
    before the scan, which then reads the halves as one name. *)
Example placeholder_split_by_style_block :
  remaining_placeholders []
    (lit "{na<style>p {}</style>me}") = [lit "name"].
Proof. reflexivity. Qed.

End LeftoverMore.

(* ================================================================== *)
(** ** Document generator: the ways a run ends *)
(* ================================================================== *)

Section GeneratorMore.

Variable pisa : text -> pisa_status.
Variable cfg : config.

Lemma update_file_read (w : world) (p : path) (c : option (list N)) :
  files (update_file w p c) p = c.
Proof.
  unfold update_file. cbn [files]. now rewrite text_eqb_refl.
Qed.

(** X16: a run returns when the file at the output path, if there is
    one, can be removed, the path can be opened for writing and the
    engine reports no error. It then leaves the bytes of the engine at
    the output path; it removes a file only if one was there; it prints
    the warning of the engine exactly when the engine gives one; and it
    ends on the message that the PDF was created. *)
Theorem generate_pdf_returns (w : world) (html : text) (output_path : path) :
  (exists_ w output_path = true -> unlink_error w output_path = None) ->
  write_error w output_path = None ->
  err (pisa (add_styles cfg w html)) = 0%Z ->
  exists w',
    generate_pdf pisa cfg html output_path w =
      (Returned tt, w',
       (if exists_ w output_path then [Unlinked output_path] else [])
       ++ [OpenedForWriting output_path;
           Wrote output_path (pdf_bytes (pisa (add_styles cfg w html)))]
       ++ (if Z.eqb (warn (pisa (add_styles cfg w html))) 0 then []
           else [PrintPdfWarning (warn (pisa (add_styles cfg w html)))])
       ++ [PrintPdfCreated output_path])
    /\ files w' output_path =
       Some (pdf_bytes (pisa (add_styles cfg w html))).
Proof.
  intros Hu Hw He. rewrite generate_pdf_unfolded. cbv zeta.
  destruct (exists_ w output_path); [rewrite (Hu eq_refl)|];
    rewrite Hw, He; cbn [Z.eqb];
    eexists; (split; [reflexivity | apply update_file_read]).
Qed.

(** X17: when the engine reports an error, the run raises an error that
    carries the indicator of the engine, after the engine has written;
    the bytes of the engine stay at the output path, and the message
    that the PDF was created is not printed. *)
Theorem engine_error_leaves_the_file (w : world) (html : text)
  (output_path : path) :
  (exists_ w output_path = true -> unlink_error w output_path = None) ->
  write_error w output_path = None ->
  err (pisa (add_styles cfg w html)) <> 0%Z ->
  exists w' trace,
    generate_pdf pisa cfg html output_path w =
      (Raised (PdfError (err (pisa (add_styles cfg w html)))), w', trace)
    /\ files w' output_path =
       Some (pdf_bytes (pisa (add_styles cfg w html)))
    /\ In (Wrote output_path (pdf_bytes (pisa (add_styles cfg w html))))
         trace
    /\ ~ In (PrintPdfCreated output_path) trace.
Proof.
  intros Hu Hw He. rewrite generate_pdf_unfolded. cbv zeta.
  apply Z.eqb_neq in He.
  destruct (exists_ w output_path); [rewrite (Hu eq_refl)|];
    rewrite Hw, He;
    eexists; eexists;
    (split; [reflexivity|]);
    (split; [apply update_file_read|]);
    (split; [cbn; tauto|]);
    cbn; intros H;
    repeat (destruct H as [H | H]; [discriminate H|]); exact H.
Qed.

(** X18: when the path cannot be opened for writing, the run raises the
    error of the operating system and writes nothing; the file that was
    at the path has been removed by then and is not brought back; and
    for a [PermissionError] the three messages about the refused access
    are printed before the general report. *)
Theorem refused_open_loses_the_previous_pdf (w : world) (html : text)
  (output_path : path) (e : exn) :
  (exists_ w output_path = true -> unlink_error w output_path = None) ->
  write_error w output_path = Some e ->
  exists w',
    generate_pdf pisa cfg html output_path w =
      (Raised e, w',
       (if exists_ w output_path then [Unlinked output_path] else [])
       ++ (if is_permission_error e
           then [PrintNoAccess output_path; PrintPossibleCauses;
                 PrintRetryHint output_path]
           else [])
       ++ failure_report e)
    /\ files w' output_path = None.
Proof.
  intros Hu Hw. rewrite generate_pdf_unfolded. cbv zeta.
  unfold exists_ in *.
  destruct (files w output_path) as [c|] eqn:Hf.
  - rewrite (Hu eq_refl), Hw. eexists. split; [reflexivity|].
    apply update_file_read.
  - rewrite Hw. eexists. split; [reflexivity | exact Hf].
Qed.

(** X19: a run never swallows an error. A run that raises has printed
    the general report of that very error as its last two events, and a
    run that returns has printed the message that the PDF was created
    as its last event. *)
Theorem every_failure_is_reported_and_raised (w : world) (html : text)
  (output_path : path) (result : outcome unit) (w' : world)
  (trace : list event) :
  generate_pdf pisa cfg html output_path w = (result, w', trace) ->
  match result with
  | Raised e => exists init, trace = init ++ failure_report e
  | Returned _ => last_event trace = Some (PrintPdfCreated output_path)
  end.
Proof.
  rewrite generate_pdf_unfolded. cbv zeta.
  destruct (exists_ w output_path); cbv beta iota;
    try destruct (unlink_error w output_path) as [e|];
    try destruct (write_error w output_path) as [e'|];
    try destruct (Z.eqb (err (pisa (add_styles cfg w html))) 0);
    try destruct (Z.eqb (warn (pisa (add_styles cfg w html))) 0);
    intros H; inversion H; subst; clear H;
    try reflexivity;
    first [ eexists; reflexivity
          | eexists (_ :: _); reflexivity
          | eexists [_; _]; reflexivity
          | eexists [_; _; _]; reflexivity ].
Qed.

End GeneratorMore.

Lemma generate_pdf_returns_witness :
  let pisa := fun html => {| pdf_bytes := html; err := 0; warn := 2 |} in
  let cfg := {| CYRILLIC_FONT_PATH := None; on_windows := false |} in
  let w := {| files := fun _ => None;
              read_error := fun _ => None;
              unlink_error := fun _ => Some PermissionError;
              write_error := fun _ => None |} in
  exists w',
    generate_pdf pisa cfg (lit "<style>p{}</style>") (lit "o.pdf") w =
      (Returned tt, w',
       [OpenedForWriting (lit "o.pdf");
        Wrote (lit "o.pdf") (lit "<style>p{}</style>");
        PrintPdfWarning 2; PrintPdfCreated (lit "o.pdf")])
    /\ files w' (lit "o.pdf") = Some (lit "<style>p{}</style>").
Proof.
  intros pisa cfg w.
  apply (@generate_pdf_returns pisa cfg w (lit "<style>p{}</style>")
           (lit "o.pdf")).
  - discriminate.
  - reflexivity.
  - reflexivity.
Defined.

Lemma engine_error_leaves_the_file_witness :
  let pisa := fun html => {| pdf_bytes := [37%N]; err := 1; warn := 0 |} in
  let cfg := {| CYRILLIC_FONT_PATH := None; on_windows := false |} in
  let w := {| files := fun _ => None;
              read_error := fun _ => None;
              unlink_error := fun _ => None;
              write_error := fun _ => None |} in
  exists w' trace,
    generate_pdf pisa cfg (lit "<p>x</p>") (lit "o.pdf") w =
      (Raised (PdfError 1), w', trace)
    /\ files w' (lit "o.pdf") = Some [37%N]
    /\ In (Wrote (lit "o.pdf") [37%N]) trace
    /\ ~ In (PrintPdfCreated (lit "o.pdf")) trace.
Proof.
  intros pisa cfg w.
  apply (@engine_error_leaves_the_file pisa cfg w (lit "<p>x</p>")
           (lit "o.pdf")).
  - reflexivity.
  - reflexivity.
  - discriminate.
Defined.

Lemma refused_open_loses_the_previous_pdf_witness :
  let pisa := fun html => {| pdf_bytes := html; err := 0; warn := 0 |} in
  let cfg := {| CYRILLIC_FONT_PATH := None; on_windows := false |} in
  let w := {| files := fun _ => Some [1%N];
              read_error := fun _ => None;
              unlink_error := fun _ => None;
              write_error := fun _ => Some PermissionError |} in
  exists w',
    generate_pdf pisa cfg (lit "<p>x</p>") (lit "o.pdf") w =
      (Raised PermissionError, w',
       [Unlinked (lit "o.pdf"); PrintNoAccess (lit "o.pdf");
        PrintPossibleCauses; PrintRetryHint (lit "o.pdf")]
       ++ failure_report PermissionError)
    /\ files w' (lit "o.pdf") = None.
Proof.
  intros pisa cfg w.
  apply (@refused_open_loses_the_previous_pdf pisa cfg w (lit "<p>x</p>")
           (lit "o.pdf") PermissionError); reflexivity.
Defined.

Lemma every_failure_is_reported_and_raised_witness :
  let pisa := fun html => {| pdf_bytes := html; err := 3; warn := 0 |} in
  let cfg := {| CYRILLIC_FONT_PATH := None; on_windows := false |} in
  let w := {| files := fun _ => None;
              read_error := fun _ => None;
              unlink_error := fun _ => None;
              write_error := fun _ => None |} in
  exists init,
    snd (generate_pdf pisa cfg (lit "<p>x</p>") (lit "o.pdf") w) =
    init ++ failure_report (PdfError 3).
Proof.
  intros pisa cfg w.
  apply (@every_failure_is_reported_and_raised pisa cfg w (lit "<p>x</p>")
           (lit "o.pdf") (Raised (PdfError 3))
           (snd (fst (generate_pdf pisa cfg (lit "<p>x</p>")
                        (lit "o.pdf") w)))
           (snd (generate_pdf pisa cfg (lit "<p>x</p>") (lit "o.pdf") w))).
  reflexivity.
Defined.

(* ================================================================== *)
(** ** Document generator: the font rule and styled documents *)
(* ================================================================== *)

Section StylesMore.

Lemma replace_char_removes_it (c : N) (new s : text) :
  occurs c new = false -> occurs c (replace [c] new s) = false.
Proof.
  intros Hn. unfold replace.
  induction s as [|d s IH]; [reflexivity|].
  destruct (N.eqb_spec c d) as [E|E].
  - subst d.
    rewrite (@re_sub_hit (literal [c]) new c s 1).
    + cbn [pred skipn]. now rewrite occurs_app, Hn, IH.
    + unfold literal. now rewrite starts_with_cons, N.eqb_refl.
  - rewrite re_sub_miss.
    + rewrite occurs_cons, IH. apply N.eqb_neq in E. now rewrite E.
    + unfold literal. now rewrite starts_with_head.
Qed.

(** X20: the URL written into the font rule starts with [file://] and
    holds no backslash, on Windows and elsewhere, whatever the path of
    the font is. *)
Theorem font_url_has_no_backslash (cfg : config) (font : text) :
  starts_with (lit "file://") (font_url cfg font) = true
  /\ occurs 92%N (font_url cfg font) = false.
Proof.
  unfold font_url, backslash.
  assert (H : occurs 92%N (replace [92%N] (lit "/") font) = false)
    by now apply replace_char_removes_it.
  destruct (on_windows cfg); split;
    try apply starts_with_app; rewrite occurs_app; cbn [orb].
  - change (occurs 92%N (lit "file://")) with false. cbn [orb].
    unfold replace, re_sub. now apply sub_from_no_new_char.
  - change (occurs 92%N (lit "file://")) with false. exact H.
Qed.

(** X21: when [<style>] or [<STYLE>] occurs in the HTML, only the font
    override is added: right before a single [</head>], or right
    behind a single [<body>] when there is no closing head tag in
    either spelling; and when neither a closing head tag nor an opening
    body tag occurs in these spellings, the HTML goes to the engine as
    it is, without any font rule. *)
Theorem styled_document_gets_font_override (cfg : config) (w : world)
  (html : text) :
  no_style_tag html = false ->
  let block := font_override (font_face_css cfg w) (font_family cfg) in
  (has_head html = false -> has_body html = false ->
     add_styles cfg w html = html)
  /\ (forall a b,
        html = a ++ lit "</head>" ++ b ->
        contains (lit "</head>") (a ++ lit "</head") = false ->
        contains (lit "</head>") b = false ->
        contains (lit "</HEAD>") (a ++ block ++ lit "</head>" ++ b) = false ->
        add_styles cfg w html = a ++ block ++ lit "</head>" ++ b)
  /\ (forall a b,
        has_head html = false ->
        html = a ++ lit "<body>" ++ b ->
        contains (lit "<body>") (a ++ lit "<body") = false ->
        contains (lit "<body>") b = false ->
        contains (lit "<BODY>") (a ++ lit "<body>" ++ block ++ b) = false ->
        add_styles cfg w html = a ++ lit "<body>" ++ block ++ b).
Proof.
  intros Hns block. unfold add_styles. rewrite Hns. fold block.
  split; [intros H1 H2; now rewrite H1, H2|].
  split.
  - intros a b -> Ha Hb Hup.
    assert (Hh : has_head (a ++ lit "</head>" ++ b) = true).
    { unfold has_head. rewrite contains_skip by apply contains_here.
      reflexivity. }
    rewrite Hh. unfold into_head.
    change (lit "</head>") with (lt :: lit "/head>") in *.
    rewrite (@replace_first_occurrence lt gt (lit "/head>") (lit "</head")
               (block ++ lt :: lit "/head>") a b eq_refl Ha).
    rewrite (@replace_absent lt (lit "/head>") _ b Hb).
    rewrite <- app_assoc.
    change (lit "</HEAD>") with (lt :: lit "/HEAD>") in *.
    apply replace_absent. exact Hup.
  - intros a b Hh -> Ha Hb Hup.
    assert (Hbd : has_body (a ++ lit "<body>" ++ b) = true).
    { unfold has_body. rewrite contains_skip by apply contains_here.
      reflexivity. }
    rewrite Hh, Hbd. unfold into_body.
    change (lit "<body>") with (lt :: lit "body>") in *.
    rewrite (@replace_first_occurrence lt gt (lit "body>") (lit "<body")
               ((lt :: lit "body>") ++ block) a b eq_refl Ha).
    rewrite (@replace_absent lt (lit "body>") _ b Hb).
    rewrite <- app_assoc.
    change (lit "<BODY>") with (lt :: lit "BODY>") in *.
    apply replace_absent. exact Hup.
Qed.

Lemma styled_document_gets_font_override_witness :
  let cfg := {| CYRILLIC_FONT_PATH := None; on_windows := false |} in
  let w := {| files := fun _ => None;
              read_error := fun _ => None;
              unlink_error := fun _ => None;
              write_error := fun _ => None |} in
  add_styles cfg w (lit "<style>p {}</style><p>x</p>") =
    lit "<style>p {}</style><p>x</p>"
  /\ add_styles cfg w (lit "<head><style>p {}</style></head>") =
    lit "<head><style>p {}</style>"
    ++ font_override (font_face_css cfg w) (font_family cfg)
    ++ lit "</head>".
Proof.
  intros cfg w. split.
  - destruct (@styled_document_gets_font_override cfg w
                (lit "<style>p {}</style><p>x</p>") eq_refl)
      as (Hnone & _).
    apply Hnone; reflexivity.
  - destruct (@styled_document_gets_font_override cfg w
                (lit "<head><style>p {}</style></head>") eq_refl)
      as (_ & Hhead & _).
    apply (Hhead (lit "<head><style>p {}</style>") []); reflexivity.
Defined.

End StylesMore.
